(** * Network cost calculator: a shallow embedding of [NetworkCostCalculator]

    Source: [network_cost_calculator/network_cost_calculator.py].

    Modelling conventions.
    - A Python object that the cost engine handles is [None], an [int] or a
      [str] ([value]); Python's [int] is unbounded, so it is a [Z].  Floats
      are outside the model.
    - A [dict] with string keys is a [gmap string _]; [d.get(k)] is the
      lookup [d !! k] with [None] read as Python's [None], [d[k]] is a
      lookup that raises [KeyError].
    - [self.rate_cards] is an insertion-ordered dict: an association list
      whose lookup returns the first binding ([list_to_map]).
    - A raised exception is the [Err] case of [result]; the logger's output
      is the list of records that [process_graph] returns with its value.
    - The worker pool of [calculate_total_cost] is a parameter [sched], the
      order in which the submitted tasks complete.
    - The loops with which [test_calculate_total_cost] and
      [test_process_graph] build the result they expect are embedded as
      [expected_total_cost] and [expected_process_graph].
    - Reading the two files ([FileManager]) and the command line ([main])
      are outside the model: [init] starts from the loaded graph and the
      loaded list of rate-card records. *)

From Stdlib Require Import ZArith Ascii String DecimalString.
From stdpp Require Import gmap strings list fin_maps list_monad.

Local Open Scope Z_scope.
Local Open Scope string_scope.

(** ** Python values and exceptions *)

Inductive value :=
  | VNone
  | VInt (z : Z)
  | VStr (s : string).

Inductive py_type := TNoneType | TInt | TStr.

Definition type_of (v : value) : py_type :=
  match v with
  | VNone => TNoneType
  | VInt _ => TInt
  | VStr _ => TStr
  end.

Inductive binop := OpAdd | OpMul.

Inductive exn :=
  | KeyError (key : string)
  | TypeError (op : binop) (lhs rhs : py_type)
  | AttributeError (ty : py_type) (attr : string)
  | ValueError (msg : string).

Global Instance value_eq_dec : EqDecision value.
Proof. solve_decision. Defined.
Global Instance py_type_eq_dec : EqDecision py_type.
Proof. solve_decision. Defined.
Global Instance binop_eq_dec : EqDecision binop.
Proof. solve_decision. Defined.
Global Instance exn_eq_dec : EqDecision exn.
Proof. solve_decision. Defined.

(** The outcome of a call: a returned value or a raised exception. *)
Inductive result (A : Type) :=
  | Ok (a : A)
  | Err (e : exn).
Arguments Ok {A} a.
Arguments Err {A} e.

Global Instance result_ret : MRet result := λ A a, Ok a.
Global Instance result_bind : MBind result := λ A B f r,
  match r with
  | Ok a => f a
  | Err e => Err e
  end.

Definition is_Ok {A} (r : result A) : Prop := ∃ a, r = Ok a.
Definition is_Err {A} (r : result A) : Prop := ∃ e, r = Err e.

(** [str(v)], as an f-string field renders it. *)
Definition py_str (v : value) : string :=
  match v with
  | VNone => "None"
  | VInt z => NilZero.string_of_int (Z.to_int z)
  | VStr s => s
  end.

(** [s * n] on a string: [n] copies, none when [n <= 0]. *)
Fixpoint str_repeat (n : nat) (s : string) : string :=
  match n with
  | O => ""
  | S n' => s ++ str_repeat n' s
  end.

(** [a + b] *)
Definition py_add (a b : value) : result value :=
  match a, b with
  | VInt x, VInt y => Ok (VInt (x + y))
  | VStr x, VStr y => Ok (VStr (x ++ y))
  | _, _ => Err (TypeError OpAdd (type_of a) (type_of b))
  end.

(** [a * b] *)
Definition py_mul (a b : value) : result value :=
  match a, b with
  | VInt x, VInt y => Ok (VInt (x * y))
  | VInt n, VStr s => Ok (VStr (str_repeat (Z.to_nat n) s))
  | VStr s, VInt n => Ok (VStr (str_repeat (Z.to_nat n) s))
  | _, _ => Err (TypeError OpMul (type_of a) (type_of b))
  end.

(** [sum(xs)]: the left fold of [+] from the integer [0]. *)
Fixpoint py_sum_from (acc : value) (xs : list value) : result value :=
  match xs with
  | [] => Ok acc
  | x :: xs' => acc' ← py_add acc x; py_sum_from acc' xs'
  end.

Definition py_sum (xs : list value) : result value := py_sum_from (VInt 0) xs.

(** [d.get(k)]: Python's [None] when the key is absent. *)
Definition dict_get (d : gmap string value) (k : string) : value :=
  default VNone (d !! k).

(** [d[k]] *)
Definition dict_item {A} (d : gmap string A) (k : string) : result A :=
  match d !! k with
  | Some v => Ok v
  | None => Err (KeyError k)
  end.

(** Truth value of a dict: false exactly when it has no entry. *)
Definition dict_truthy {A} (d : gmap string A) : bool :=
  match map_to_list d with
  | [] => false
  | _ :: _ => true
  end.

(** ** Data model *)

(** A rate card: price key to price; the record also holds its ["name"]. *)
Abbreviation rate_card := (gmap string value).

(** Attributes of an edge: [Dict[str, Union[str, int]]]. *)
Abbreviation edge_data := (gmap string value).

(** Attributes of a node; [get_node_type] is annotated to return [str]. *)
Abbreviation node_data := (gmap string string).

(** A route: [(start_node, end_node, edge_data)]. *)
Definition route : Type := string * string * edge_data.

(** The loaded [nx.Graph]: [graph.nodes] and, in the graph's own iteration
    order, [graph.edges(data=True)]. *)
Record Graph := {
  nodes : gmap string node_data;
  edges : list route
}.

(** [self] of [NetworkCostCalculator]. *)
Record Calculator := {
  graph : Graph;
  rate_cards : list (string * rate_card)
}.

(** [self.rate_cards.get(name)] *)
Definition rate_cards_get (c : Calculator) (name : string) : option rate_card :=
  (list_to_map (rate_cards c) : gmap string rate_card) !! name.

(** [self.rate_cards.keys()] *)
Definition rate_cards_keys (c : Calculator) : list string := (rate_cards c).*1.

(** One record of a result fragment: a route's [{length, material, cost}]
    or the total of the rate card. *)
Inductive result_entry :=
  | ERoute (length material cost : value)
  | ETotal (total : value).

Global Instance result_entry_eq_dec : EqDecision result_entry.
Proof. solve_decision. Defined.

Abbreviation results := (gmap string (gmap string result_entry)).

(** ** Construction of the calculator *)

(** [c.lower()] on an ASCII character; other bytes are left as they are. *)
Definition lower_ascii (a : ascii) : ascii :=
  let n := nat_of_ascii a in
  if ((65 <=? n)%nat && (n <=? 90)%nat)%bool then ascii_of_nat (n + 32) else a.

(** [name.lower().replace(" ", "_")] *)
Fixpoint normalize_name (name : string) : string :=
  match name with
  | EmptyString => EmptyString
  | String a rest =>
    let a' := lower_ascii a in
    String (if decide (a' = " "%char) then "_"%char else a') (normalize_name rest)
  end.

(** [d[k] = v] on an insertion-ordered dict: a key already present keeps
    its position and takes the new value, a fresh key goes last. *)
Fixpoint alist_set {A} (d : list (string * A)) (k : string) (v : A)
  : list (string * A) :=
  match d with
  | [] => [(k, v)]
  | (k', v') :: d' =>
    if decide (k = k') then (k, v) :: d' else (k', v') :: alist_set d' k v
  end.

(** The dict comprehension of [__init__] over the records that
    [load_rate_cards] returned, from the entries built so far. *)
Fixpoint index_rate_cards_from (acc : list (string * rate_card))
    (records : list rate_card) : result (list (string * rate_card)) :=
  match records with
  | [] => Ok acc
  | rc :: records' =>
    name ← dict_item rc "name";
    match name with
    | VStr s => index_rate_cards_from (alist_set acc (normalize_name s) rc) records'
    | _ => Err (AttributeError (type_of name) "lower")
    end
  end.

Definition index_rate_cards (records : list rate_card)
  : result (list (string * rate_card)) :=
  index_rate_cards_from [] records.

(** [__init__], after the two files are read. *)
Definition init (g : Graph) (records : list rate_card) : result Calculator :=
  cards ← index_rate_cards records;
  Ok {| graph := g; rate_cards := cards |}.

(** ** The cost engine *)

(** [get_node_type]: [self.graph.nodes[node].get("type", "")] *)
Definition get_node_type (c : Calculator) (node : string) : result string :=
  attrs ← dict_item (nodes (graph c)) node;
  Ok (default "" (attrs !! "type")).

(** [get_node_price]: [rate_card.get(node_type, 0)] *)
Definition get_node_price (rc : rate_card) (node_type : string) : value :=
  default (VInt 0) (rc !! node_type).

(** [f"Trench/m ({material})"] *)
Definition trench_key (material : value) : string :=
  "Trench/m (" ++ py_str material ++ ")".

(** [calculate_route_cost] *)
Definition calculate_route_cost (c : Calculator) (rc : rate_card) (r : route)
  : result value :=
  let '(start_node, end_node, edge_data) := r in
  start_type ← get_node_type c start_node;
  let start_node_price := get_node_price rc start_type in
  end_type ← get_node_type c end_node;
  let end_node_price := get_node_price rc end_type in
  trench ← py_mul (dict_get edge_data "length")
                  (default (VInt 0)
                     (rc !! trench_key (dict_get edge_data "material")));
  partial ← py_add start_node_price trench;
  py_add partial end_node_price.

(** [get_routes]: the list built from [self.graph.edges(data=True)]. *)
Definition get_routes (c : Calculator) : list route := edges (graph c).

(** [f"route_{start_node}--{end_node}"] *)
Definition route_key (start_node end_node : string) : string :=
  "route_" ++ start_node ++ "--" ++ end_node.

(** [add_route_to_results].  The dict [results] is updated in place, so the
    call yields the dict as it leaves it together with its outcome: the
    bucket of [results_key] is created before the edge attributes are read. *)
Definition add_route_to_results (res : results) (results_key : string)
    (r : route) (route_cost : value) : results * result unit :=
  let '(start_node, end_node, edge_data) := r in
  let rkey := route_key start_node end_node in
  let res1 :=
    match res !! results_key with
    | None => <[results_key := ∅]> res
    | Some _ => res
    end in
  match edge_data !! "length" with
  | None => (res1, Err (KeyError "length"))
  | Some len =>
    match edge_data !! "material" with
    | None => (res1, Err (KeyError "material"))
    | Some mat =>
      match res1 !! results_key with
      | None => (res1, Err (KeyError results_key))
      | Some bucket =>
        (<[results_key := <[rkey := ERoute len mat route_cost]> bucket]> res1,
         Ok ())
      end
    end
  end.

(** ** The worker pool *)

(** The exception of the first task, in completion order [sched], that
    raised. *)
Fixpoint first_raised {A} (sched : list nat) (outs : list (result A))
  : option exn :=
  match sched with
  | [] => None
  | i :: sched' =>
    match outs !! i with
    | Some (Err e) => Some e
    | _ => first_raised sched' outs
    end
  end.

(** [await asyncio.gather] over the submitted tasks: the values, in the
    order of the tasks, when every task returned; otherwise the exception
    of the task that raised first.  A [sched] that names no failed task
    leaves the choice to the order of submission. *)
Definition gather {A} (sched : list nat) (outs : list (result A))
  : result (list A) :=
  match first_raised sched outs with
  | Some e => Err e
  | None => mapM id outs
  end.

(** The second loop of [calculate_total_cost]: each route is priced again
    and entered in [results]. *)
Fixpoint add_routes (c : Calculator) (rc : rate_card) (results_key : string)
    (res : results) (rs : list route) : result results :=
  match rs with
  | [] => Ok res
  | r :: rs' =>
    route_cost ← calculate_route_cost c rc r;
    match add_route_to_results res results_key r route_cost with
    | (res', Ok _) => add_routes c rc results_key res' rs'
    | (_, Err e) => Err e
    end
  end.

(** [f"Rate card '{rate_card_name}' not found."] *)
Definition not_found_msg (rate_card_name : string) : string :=
  "Rate card '" ++ rate_card_name ++ "' not found.".

(** [calculate_total_cost] *)
Definition calculate_total_cost (sched : list nat) (c : Calculator)
    (rate_card_name : string) : result results :=
  match rate_cards_get c rate_card_name with
  | None => Err (ValueError (not_found_msg rate_card_name))
  | Some rc =>
    if negb (dict_truthy rc)
    then Err (ValueError (not_found_msg rate_card_name))
    else
      route_costs ← gather sched (calculate_route_cost c rc <$> get_routes c);
      total_cost ← py_sum route_costs;
      let results_key := "rate_card_" ++ rate_card_name in
      let res : results := {[ results_key := ∅ ]} in
      res ← add_routes c rc results_key res (get_routes c);
      bucket ← dict_item res results_key;
      Ok (<[results_key :=
              <[results_key ++ "_routes_total" := ETotal total_cost]> bucket]>
            res)
  end.

(** What the logger receives. *)
Inductive log_record :=
  | InfoCalculating (rate_card_name : string)
  | InfoCompleted
  | ErrorProcessing (e : exn).

(** The loop of [process_graph] over the remaining rate-card names, from the
    results merged and the records logged so far.  An exception leaves the
    [try] block: it is logged and the function ends without a [return], so
    the caller receives Python's [None]. *)
Fixpoint process_cards (sched : string → list nat) (c : Calculator)
    (names : list string) (res : results) (log : list log_record)
  : list log_record * option results :=
  match names with
  | [] => ((log ++ [InfoCompleted])%list, Some res)
  | rate_card_name :: names' =>
    let log1 := (log ++ [InfoCalculating rate_card_name])%list in
    match calculate_total_cost (sched rate_card_name) c rate_card_name with
    | Ok total_cost => process_cards sched c names' (total_cost ∪ res) log1
    | Err e => ((log1 ++ [ErrorProcessing e])%list, None)
    end
  end.

(** [process_graph]; [sched name] is the completion order of the pool
    during the computation for [name]. *)
Definition process_graph (sched : string → list nat) (c : Calculator)
  : list log_record * option results :=
  process_cards sched c (rate_cards_keys c) ∅ [].

(** ** The fixture of the unit tests *)

Module Fixture.

Definition rate_card_a : rate_card :=
  list_to_map [("name", VStr "Rate Card A"); ("Cabinet", VInt 1000);
               ("Trench/m (verge)", VInt 50); ("Trench/m (road)", VInt 100);
               ("Chamber", VInt 200); ("Pot", VInt 100)].

Definition rate_card_b : rate_card :=
  list_to_map [("name", VStr "Rate Card B"); ("Cabinet", VInt 1200);
               ("Trench/m (verge)", VInt 40); ("Trench/m (road)", VInt 80);
               ("Chamber", VInt 200); ("Pot", VInt 20)].

Definition edge_ab : edge_data :=
  list_to_map [("material", VStr "verge"); ("length", VInt 50)].

Definition test_graph : Graph :=
  {| nodes := list_to_map [("A", {[ "type" := "Cabinet" ]});
                           ("B", {[ "type" := "Pot" ]})];
     edges := [("A", "B", edge_ab)] |}.

Definition empty_graph : Graph := {| nodes := ∅; edges := [] |}.

Definition calculator : Calculator :=
  {| graph := test_graph;
     rate_cards := [("rate_card_a", rate_card_a);
                    ("rate_card_b", rate_card_b)] |}.

(** A graph whose only edge carries no [length]. *)
Definition graph_without_length : Graph :=
  {| nodes := nodes test_graph;
     edges := [("A", "B", {[ "material" := VStr "verge" ]})] |}.

(** A second rate card whose [Cabinet] price is a JSON string. *)
Definition rate_card_quoted : rate_card :=
  list_to_map [("name", VStr "Rate Card B"); ("Cabinet", VStr "1200");
               ("Trench/m (verge)", VInt 40); ("Pot", VInt 20)].

(** The rate card of the specification's scenario. *)
Definition scenario_card : rate_card :=
  list_to_map [("Cabinet", VInt 1000); ("Pot", VInt 100);
               ("Trench/m (verge)", VInt 50)].

End Fixture.

(** ** The expectations of the unit tests *)

(** [res[k1][k2] = v] on a dict of dicts. *)
Definition nested_set (res : results) (k1 k2 : string) (v : result_entry)
  : result results :=
  bucket ← dict_item res k1;
  Ok (<[k1 := <[k2 := v]> bucket]> res).

(** The loop over [calculator.get_routes()] with which
    [test_calculate_total_cost] and [test_process_graph] build what they
    expect: each route is priced, its record is stored under its route key
    and its cost is added to the running total. *)
Fixpoint expected_loop (c : Calculator) (rc : rate_card) (results_key : string)
    (expected : results) (total : value) (rs : list route)
  : result (results * value) :=
  match rs with
  | [] => Ok (expected, total)
  | (start_node, end_node, edge_data) :: rs' =>
    route_cost ← calculate_route_cost c rc (start_node, end_node, edge_data);
    len ← dict_item edge_data "length";
    mat ← dict_item edge_data "material";
    expected' ← nested_set expected results_key
                  (route_key start_node end_node) (ERoute len mat route_cost);
    total' ← py_add total route_cost;
    expected_loop c rc results_key expected' total' rs'
  end.

(** [calculator.rate_cards[name]] *)
Definition rate_cards_item (c : Calculator) (name : string) : result rate_card :=
  match rate_cards_get c name with
  | Some rc => Ok rc
  | None => Err (KeyError name)
  end.

(** [expected_result] of [test_calculate_total_cost], for the rate card
    [name] in place of ["rate_card_a"]. *)
Definition expected_total_cost (c : Calculator) (name : string)
  : result results :=
  rc ← rate_cards_item c name;
  let results_key := "rate_card_" ++ name in
  '(expected, total) ← expected_loop c rc results_key {[ results_key := ∅ ]}
                         (VInt 0) (get_routes c);
  nested_set expected results_key (results_key ++ "_routes_total")
    (ETotal total).

(** The outer loop of [test_process_graph] over the remaining names. *)
Fixpoint expected_cards (c : Calculator) (names : list string)
    (expected : results) : result results :=
  match names with
  | [] => Ok expected
  | name :: names' =>
    let results_key := "rate_card_" ++ name in
    let expected0 := <[results_key := ∅]> expected in
    rc ← rate_cards_item c name;
    '(expected1, total) ← expected_loop c rc results_key expected0 (VInt 0)
                            (get_routes c);
    expected2 ← nested_set expected1 results_key
                  (results_key ++ "_routes_total") (ETotal total);
    expected_cards c names' expected2
  end.

(** [expected_result] of [test_process_graph]. *)
Definition expected_process_graph (c : Calculator) : result results :=
  expected_cards c (rate_cards_keys c) ∅.

(** ** Vocabulary of the statements *)


(** The characters of a string. *)
Fixpoint chars (s : string) : list ascii :=
  match s with
  | EmptyString => []
  | String a rest => a :: chars rest
  end.

(** The key under which [__init__] stores a record, when it has one. *)
Definition record_key (rc : rate_card) : option string :=
  match rc !! "name" with
  | Some (VStr s) => Some (normalize_name s)
  | _ => None
  end.

(** The route key of a route. *)
Definition key_of_route (r : route) : string := route_key r.1.1 r.1.2.

(** The record that [add_route_to_results] stores for a route with a given
    cost, when the edge has both attributes. *)
Definition record_of_route (r : route) (cost : value) : option result_entry :=
  len ← r.2 !! "length"; mat ← r.2 !! "material"; Some (ERoute len mat cost).

(** Sum of a list of integers. *)
Definition sum_Z (zs : list Z) : Z := foldr Z.add 0 zs.

(** Whether a call returned can be decided. *)
Global Instance is_Ok_dec {A} (r : result A) : Decision (is_Ok r).
Proof.
  destruct r as [a|e]; [left; by exists a|right; by intros [a Ha]].
Defined.

(** Every edge joins two nodes of the graph, as [nx.Graph] keeps it. *)
Definition endpoints_in_graph (g : Graph) : Prop :=
  Forall (λ r : route, is_Some (nodes g !! r.1.1) ∧ is_Some (nodes g !! r.1.2))
         (edges g).

(** ** The unit tests, replayed *)

Example init_fixture :
  init Fixture.test_graph [Fixture.rate_card_a; Fixture.rate_card_b]
  = Ok Fixture.calculator.
Proof. vm_compute. reflexivity. Qed.

Example test_get_node_type :
  get_node_type Fixture.calculator "A" = Ok "Cabinet".
Proof. vm_compute. reflexivity. Qed.

Example test_calculate_total_cost :
  calculate_total_cost [] Fixture.calculator "rate_card_a"
  = Ok {[ "rate_card_rate_card_a" :=
            {[ "route_A--B" := ERoute (VInt 50) (VStr "verge") (VInt 3600);
               "rate_card_rate_card_a_routes_total" := ETotal (VInt 3600) ]} ]}.
Proof. vm_compute. reflexivity. Qed.

Example test_process_graph :
  process_graph (λ _, []) Fixture.calculator
  = ([InfoCalculating "rate_card_a"; InfoCalculating "rate_card_b";
      InfoCompleted],
     Some {[ "rate_card_rate_card_a" :=
               {[ "route_A--B" := ERoute (VInt 50) (VStr "verge") (VInt 3600);
                  "rate_card_rate_card_a_routes_total" := ETotal (VInt 3600) ]};
             "rate_card_rate_card_b" :=
               {[ "route_A--B" := ERoute (VInt 50) (VStr "verge") (VInt 3220);
                  "rate_card_rate_card_b_routes_total" := ETotal (VInt 3220) ]} ]}).
Proof. vm_compute. reflexivity. Qed.

(** ** Basic facts *)

Lemma str_app_assoc (s1 s2 s3 : string) : (s1 ++ s2) ++ s3 = s1 ++ s2 ++ s3.
Proof.
  induction s1 as [|a s1 IH]; [done|].
  change (String a ((s1 ++ s2) ++ s3) = String a (s1 ++ s2 ++ s3)).
  by rewrite IH.
Qed.

Lemma dict_truthy_empty {A} : dict_truthy (∅ : gmap string A) = false.
Proof. unfold dict_truthy. by rewrite map_to_list_empty. Qed.

Lemma dict_truthy_lookup {A} (d : gmap string A) k v :
  d !! k = Some v → dict_truthy d = true.
Proof.
  intros Hk. unfold dict_truthy.
  destruct (map_to_list d) as [|p l] eqn:Hl; [|done].
  apply map_to_list_empty_iff in Hl. subst d. by rewrite lookup_empty in Hk.
Qed.


Lemma get_node_type_present c node attrs :
  nodes (graph c) !! node = Some attrs →
  get_node_type c node = Ok (default "" (attrs !! "type")).
Proof. intros H. unfold get_node_type, dict_item. by rewrite H. Qed.

Lemma get_node_type_absent c node :
  nodes (graph c) !! node = None →
  get_node_type c node = Err (KeyError node).
Proof. intros H. unfold get_node_type, dict_item. by rewrite H. Qed.

Lemma rate_cards_get_absent c name :
  name ∉ rate_cards_keys c → rate_cards_get c name = None.
Proof. intros H. by apply not_elem_of_list_to_map_1. Qed.

Lemma rate_cards_get_elem c name rc :
  rate_cards_get c name = Some rc → (name, rc) ∈ rate_cards c.
Proof. apply elem_of_list_to_map_2. Qed.

(** ** Route cost *)

(** C1. For a route whose edge attributes hold [length] and [material], the
    route cost is the price of the start node's type, plus the length times
    the rate under ["Trench/m (<material>)"], plus the price of the end
    node's type, a key absent from the rate card counting as [0]: as an
    equation of Python's own [+] and [*] for every rate card and route, and
    as the integer [ps + len * t + pe] when the endpoints are nodes of the
    graph, the length and the three prices are integers and the material
    is a string.  On the scenario
    of one [Cabinet]--[Pot] edge of length 50 through verge, with the rate
    card [{Cabinet: 1000, Pot: 100, Trench/m (verge): 50}], the cost is
    3600. *)
Theorem route_cost_formula :
  (∀ (c : Calculator) (rc : rate_card) (start_node end_node : string)
     (d : edge_data) (len mat : value),
     d !! "length" = Some len →
     d !! "material" = Some mat →
     calculate_route_cost c rc (start_node, end_node, d)
     = (start_type ← get_node_type c start_node;
        end_type ← get_node_type c end_node;
        trench ← py_mul len (default (VInt 0) (rc !! trench_key mat));
        partial ← py_add (get_node_price rc start_type) trench;
        py_add partial (get_node_price rc end_type)))
  ∧ (∀ (c : Calculator) (rc : rate_card) (start_node end_node : string)
     (d : edge_data) (sa ea : node_data) (mat : string) (len ps pe t : Z),
     nodes (graph c) !! start_node = Some sa →
     nodes (graph c) !! end_node = Some ea →
     d !! "length" = Some (VInt len) →
     d !! "material" = Some (VStr mat) →
     default (VInt 0) (rc !! default "" (sa !! "type")) = VInt ps →
     default (VInt 0) (rc !! default "" (ea !! "type")) = VInt pe →
     default (VInt 0) (rc !! ("Trench/m (" ++ mat ++ ")")) = VInt t →
     calculate_route_cost c rc (start_node, end_node, d)
     = Ok (VInt (ps + len * t + pe)))
  ∧ calculate_route_cost Fixture.calculator Fixture.scenario_card
      ("A", "B", Fixture.edge_ab) = Ok (VInt 3600).
Proof.
  split; [|split; [|by vm_compute]].
  { intros c rc s e d len mat Hl Hm.
    unfold calculate_route_cost, dict_get. by rewrite Hl, Hm. }
  intros c rc s e d sa ea mat len ps pe t Hs He Hl Hm Hps Hpe Ht.
  unfold calculate_route_cost.
  rewrite (get_node_type_present _ _ _ Hs), (get_node_type_present _ _ _ He).
  cbn [mbind result_bind].
  unfold get_node_price, dict_get, trench_key.
  rewrite Hl, Hm. cbn [from_option id py_str].
  rewrite Hps, Hpe, Ht. reflexivity.
Qed.

Lemma route_cost_formula_witness :
  calculate_route_cost Fixture.calculator Fixture.rate_card_b
    ("B", "A", Fixture.edge_ab) = Ok (VInt (20 + 50 * 40 + 1200)).
Proof.
  apply (proj1 (proj2 route_cost_formula) Fixture.calculator
           Fixture.rate_card_b
           "B" "A" Fixture.edge_ab {[ "type" := "Pot" ]}
           {[ "type" := "Cabinet" ]} "verge" 50 20 1200 40);
    vm_compute; reflexivity.
Defined.

(** C3. [get_node_price] returns the price stored under the node type, and
    [0] when the rate card has no such key; it never raises.  In the same
    way a material that the rate card does not price adds [0] to the route
    cost: the cost of the route is the start price plus [0] plus the end
    price, which for integer prices is their sum. *)
Theorem permissive_price_lookups :
  (∀ (rc : rate_card) (t : string),
     get_node_price rc t
     = match rc !! t with Some price => price | None => VInt 0 end)
  ∧ (∀ (c : Calculator) (rc : rate_card) (start_node end_node : string)
       (d : edge_data) (sa ea : node_data) (mat : string) (len : Z),
       nodes (graph c) !! start_node = Some sa →
       nodes (graph c) !! end_node = Some ea →
       d !! "length" = Some (VInt len) →
       d !! "material" = Some (VStr mat) →
       rc !! ("Trench/m (" ++ mat ++ ")") = None →
       calculate_route_cost c rc (start_node, end_node, d)
       = (partial ← py_add (get_node_price rc (default "" (sa !! "type")))
                           (VInt 0);
          py_add partial (get_node_price rc (default "" (ea !! "type"))))
       ∧ ∀ ps pe : Z,
           get_node_price rc (default "" (sa !! "type")) = VInt ps →
           get_node_price rc (default "" (ea !! "type")) = VInt pe →
           calculate_route_cost c rc (start_node, end_node, d)
           = Ok (VInt (ps + pe))).
Proof.
  split; [intros rc t; unfold get_node_price; by destruct (rc !! t)|].
  intros c rc s e d sa ea mat len Hs He Hl Hm Hnone.
  assert (calculate_route_cost c rc (s, e, d)
          = (partial ← py_add (get_node_price rc (default "" (sa !! "type")))
                              (VInt 0);
             py_add partial (get_node_price rc (default "" (ea !! "type")))))
    as Heq.
  { unfold calculate_route_cost.
    rewrite (get_node_type_present _ _ _ Hs), (get_node_type_present _ _ _ He).
    cbn [mbind result_bind].
    unfold dict_get, trench_key. rewrite Hl, Hm. cbn [from_option id py_str].
    rewrite Hnone. cbn [from_option id py_mul mbind result_bind].
    by rewrite Z.mul_0_r. }
  split; [exact Heq|].
  intros ps pe Hps Hpe. rewrite Heq, Hps, Hpe.
  cbn [py_add mbind result_bind]. by rewrite Z.add_0_r.
Qed.

Lemma permissive_price_lookups_witness :
  calculate_route_cost Fixture.calculator Fixture.rate_card_a
    ("A", "B", {[ "length" := VInt 50; "material" := VStr "gravel" ]})
  = Ok (VInt (1000 + 100)).
Proof.
  refine (proj2 (proj2 permissive_price_lookups Fixture.calculator
                   Fixture.rate_card_a "A" "B"
                   {[ "length" := VInt 50; "material" := VStr "gravel" ]}
                   {[ "type" := "Cabinet" ]} {[ "type" := "Pot" ]}
                   "gravel" 50 _ _ _ _ _) 1000 100 _ _);
    vm_compute; reflexivity.
Defined.

(** C9 (amended). [get_node_type] returns the [type] attribute of a node of
    the graph, or the empty string when the node has none; for an id that
    is not a node of the graph it raises [KeyError]. *)
Theorem get_node_type_spec (c : Calculator) (node : string) :
  match nodes (graph c) !! node with
  | Some attrs =>
    get_node_type c node
    = Ok (match attrs !! "type" with Some t => t | None => "" end)
  | None => get_node_type c node = Err (KeyError node)
  end.
Proof.
  destruct (nodes (graph c) !! node) as [attrs|] eqn:H.
  - rewrite (get_node_type_present _ _ _ H). by destruct (attrs !! "type").
  - by apply get_node_type_absent.
Qed.

(** C9, as stated, fails: the id ["Z"] is not a node of the test graph and
    [get_node_type] raises instead of returning a string. *)
Lemma get_node_type_unknown_node_raises :
  nodes (graph Fixture.calculator) !! "Z" = None
  ∧ get_node_type Fixture.calculator "Z" = Err (KeyError "Z")
  ∧ ¬ is_Ok (get_node_type Fixture.calculator "Z").
Proof.
  split; [by vm_compute|]. split; [by vm_compute|].
  intros [t Ht]. vm_compute in Ht. discriminate.
Qed.

(** ** Loaded rate cards *)

Lemma alist_set_Forall {A} (P : string * A → Prop) d k v :
  Forall P d → P (k, v) → Forall P (alist_set d k v).
Proof.
  intros Hd Hkv. induction Hd as [|[k' v'] d' Hp Hd' IH]; simpl.
  - by constructor.
  - case_decide; constructor; auto.
Qed.

Lemma index_rate_cards_from_named acc records cards :
  Forall (λ p, is_Some (p.2 !! "name")) acc →
  index_rate_cards_from acc records = Ok cards →
  Forall (λ p, is_Some (p.2 !! "name")) cards.
Proof.
  revert acc. induction records as [|rc records IH]; intros acc Hacc Hok.
  - simpl in Hok. by inversion Hok; subst.
  - simpl in Hok. unfold dict_item in Hok.
    destruct (rc !! "name") as [[| |s]|] eqn:Hname; try discriminate.
    cbn [mbind result_bind] in Hok.
    eapply IH; [|exact Hok]. apply alist_set_Forall; [done|]. by eexists.
Qed.

(** Every record of a calculator built by [init] holds its ["name"], so it
    is a non-empty dict. *)
Lemma init_rate_cards_truthy g records c name rc :
  init g records = Ok c → (name, rc) ∈ rate_cards c → dict_truthy rc = true.
Proof.
  unfold init, index_rate_cards. intros Hinit Hin.
  destruct (index_rate_cards_from [] records) as [cards|] eqn:Hcards;
    [|discriminate].
  cbn [mbind result_bind] in Hinit. inversion Hinit; subst c. simpl in Hin.
  apply index_rate_cards_from_named in Hcards; [|constructor].
  rewrite Forall_forall in Hcards.
  destruct (Hcards _ Hin) as [v Hv]. by eapply dict_truthy_lookup.
Qed.

Lemma init_graph g records c : init g records = Ok c → graph c = g.
Proof.
  unfold init. destruct (index_rate_cards records); [|discriminate].
  cbn [mbind result_bind]. by inversion 1.
Qed.

(** ** Total cost of one rate card *)

Lemma first_raised_nil {A} sched : first_raised sched (@nil (result A)) = None.
Proof. induction sched as [|i sched IH]; [done|]. simpl. exact IH. Qed.

Lemma total_cost_not_found sched c name :
  rate_cards_get c name = None →
  calculate_total_cost sched c name = Err (ValueError (not_found_msg name)).
Proof. intros H. unfold calculate_total_cost. by rewrite H. Qed.

Lemma total_cost_no_routes sched c name rc :
  rate_cards_get c name = Some rc → dict_truthy rc = true →
  get_routes c = [] →
  calculate_total_cost sched c name
  = Ok {[ "rate_card_" ++ name :=
            {[ "rate_card_" ++ name ++ "_routes_total" := ETotal (VInt 0) ]} ]}.
Proof.
  intros Hrc Htruthy Hroutes. unfold calculate_total_cost.
  rewrite Hrc, Htruthy, Hroutes. cbn [negb fmap list_fmap].
  unfold gather. rewrite first_raised_nil.
  cbn [mapM mbind result_bind mret result_ret py_sum py_sum_from add_routes].
  unfold dict_item. rewrite lookup_singleton_eq.
  cbn [mbind result_bind].
  by rewrite insert_singleton_eq, insert_empty, str_app_assoc.
Qed.

(** C4. For a calculator as [__init__] builds it, over a graph with no
    edge, the total cost of every loaded rate card is the fragment with the
    single bucket ["rate_card_<name>"], and that bucket holds the single
    entry ["rate_card_<name>_routes_total"] with value [0]. *)
Theorem empty_graph_total (sched : list nat) (g : Graph)
    (records : list rate_card) (c : Calculator) (name : string) :
  init g records = Ok c →
  edges g = [] →
  name ∈ rate_cards_keys c →
  calculate_total_cost sched c name
  = Ok {[ "rate_card_" ++ name :=
            {[ "rate_card_" ++ name ++ "_routes_total" := ETotal (VInt 0) ]} ]}.
Proof.
  intros Hinit Hedges Hname.
  destruct (rate_cards_get c name) as [rc|] eqn:Hrc.
  - apply (total_cost_no_routes sched c name rc Hrc).
    + eapply init_rate_cards_truthy; [exact Hinit|].
      by apply rate_cards_get_elem.
    + unfold get_routes. by rewrite (init_graph _ _ _ Hinit).
  - unfold rate_cards_get in Hrc. apply not_elem_of_list_to_map in Hrc.
    by destruct Hrc.
Qed.

Lemma empty_graph_total_witness :
  calculate_total_cost [] {| graph := Fixture.empty_graph;
                             rate_cards := rate_cards Fixture.calculator |}
    "rate_card_b"
  = Ok {[ "rate_card_rate_card_b" :=
            {[ "rate_card_rate_card_b_routes_total" := ETotal (VInt 0) ]} ]}.
Proof.
  apply (empty_graph_total [] Fixture.empty_graph
           [Fixture.rate_card_a; Fixture.rate_card_b]).
  - vm_compute. reflexivity.
  - reflexivity.
  - vm_compute. apply list_elem_of_In. simpl. tauto.
Defined.

(** C5. For a name that is not a key of [rate_cards], [calculate_total_cost]
    raises [ValueError] with the "not found" message, whatever the graph and
    the pool do: the outcome is the exception alone, no result dict. *)
Theorem unknown_rate_card_not_found (sched : list nat) (c : Calculator)
    (name : string) :
  name ∉ rate_cards_keys c →
  calculate_total_cost sched c name = Err (ValueError (not_found_msg name)).
Proof.
  intros H. apply total_cost_not_found. by apply rate_cards_get_absent.
Qed.

Lemma unknown_rate_card_not_found_witness :
  calculate_total_cost [] Fixture.calculator "Nonexistent Rate Card"
  = Err (ValueError "Rate card 'Nonexistent Rate Card' not found.").
Proof.
  apply (unknown_rate_card_not_found [] Fixture.calculator
           "Nonexistent Rate Card").
  vm_compute. intros H. apply list_elem_of_In in H. simpl in H.
  intuition discriminate.
Defined.

(** C10. When the record stored under a name is the empty dict,
    [calculate_total_cost] raises the same "not found" [ValueError] as for
    a name that is no key at all: the test is on the truth value of what
    [rate_cards.get] returns. *)
Theorem empty_rate_card_not_found (sched : list nat) (c : Calculator)
    (name : string) :
  rate_cards_get c name = Some ∅ →
  calculate_total_cost sched c name = Err (ValueError (not_found_msg name)).
Proof.
  intros Hrc. unfold calculate_total_cost.
  by rewrite Hrc, dict_truthy_empty.
Qed.

Lemma empty_rate_card_not_found_witness :
  calculate_total_cost []
    {| graph := Fixture.test_graph; rate_cards := [("blank", ∅)] |} "blank"
  = Err (ValueError "Rate card 'blank' not found.").
Proof.
  apply (empty_rate_card_not_found []
           {| graph := Fixture.test_graph; rate_cards := [("blank", ∅)] |}
           "blank").
  vm_compute. reflexivity.
Defined.

(** ** Missing edge attributes *)








(** ** The pool does not change the outcome *)

Lemma mapM_id_lookup_Err {A} (outs : list (result A)) i e :
  outs !! i = Some (Err e) → is_Err (mapM id outs).
Proof.
  revert i. induction outs as [|o outs IH]; intros i Hi; [done|].
  cbn [mapM]. destruct o as [a|e']; [|by eexists].
  cbn [id mbind result_bind]. destruct i as [|i]; [done|].
  destruct (IH i Hi) as [e2 He2].
  change (mapM id outs = Err e2) in He2. exists e2.
  change ((mapM id outs ≫= λ k, mret (a :: k)) = Err e2). by rewrite He2.
Qed.

Lemma first_raised_Some {A} sched (outs : list (result A)) e :
  first_raised sched outs = Some e → ∃ i, outs !! i = Some (Err e).
Proof.
  induction sched as [|i sched IH]; [done|]. cbn [first_raised].
  destruct (outs !! i) as [[a|e']|] eqn:Hi; auto.
  intros [= ->]. eauto.
Qed.

Lemma gather_Ok {A} sched (outs : list (result A)) vs :
  gather sched outs = Ok vs ↔ mapM id outs = Ok vs.
Proof.
  unfold gather.
  destruct (first_raised sched outs) as [e|] eqn:Hf; [|done].
  apply first_raised_Some in Hf as [i Hi].
  destruct (mapM_id_lookup_Err outs i e Hi) as [e' He'].
  rewrite He'. split; discriminate.
Qed.

Lemma gather_sched {A} sched1 sched2 (outs : list (result A)) vs :
  gather sched1 outs = Ok vs → gather sched2 outs = Ok vs.
Proof. intros H. apply gather_Ok. by apply gather_Ok in H. Qed.

Lemma total_cost_sched sched1 sched2 c name res :
  calculate_total_cost sched1 c name = Ok res →
  calculate_total_cost sched2 c name = Ok res.
Proof.
  unfold calculate_total_cost.
  destruct (rate_cards_get c name) as [rc|]; [|done].
  destruct (negb (dict_truthy rc)); [done|].
  destruct (gather sched1 _) as [route_costs|e] eqn:Hg; [|done].
  by rewrite (gather_sched sched1 sched2 _ _ Hg).
Qed.

(** C8. Two invocations of [calculate_total_cost] for the same name on the
    same calculator agree, in whatever order the pool completes the route
    tasks in each: both return, and then the same result dict, or both
    raise. *)
Theorem total_cost_deterministic (sched1 sched2 : list nat) (c : Calculator)
    (name : string) :
  match calculate_total_cost sched1 c name,
        calculate_total_cost sched2 c name with
  | Ok res1, Ok res2 => res1 = res2
  | Err _, Err _ => True
  | _, _ => False
  end.
Proof.
  destruct (calculate_total_cost sched1 c name) as [res1|e1] eqn:H1.
  - by rewrite (total_cost_sched sched1 sched2 c name res1 H1).
  - destruct (calculate_total_cost sched2 c name) as [res2|e2] eqn:H2; [|done].
    apply (total_cost_sched sched2 sched1) in H2. congruence.
Qed.

(** ** Shape of a result fragment *)

Lemma add_route_singleton results_key bucket r cost res' :
  add_route_to_results {[ results_key := bucket ]} results_key r cost
  = (res', Ok ()) →
  ∃ bucket', res' = {[ results_key := bucket' ]}.
Proof.
  destruct r as [[start_node end_node] d]. unfold add_route_to_results.
  rewrite lookup_singleton_eq.
  destruct (d !! "length") as [len|]; [|by inversion 1].
  destruct (d !! "material") as [mat|]; [|by inversion 1].
  rewrite lookup_singleton_eq, insert_singleton_eq.
  inversion 1. by eexists.
Qed.

Lemma add_routes_singleton c rc results_key bucket rs res' :
  add_routes c rc results_key {[ results_key := bucket ]} rs = Ok res' →
  ∃ bucket', res' = {[ results_key := bucket' ]}.
Proof.
  revert bucket. induction rs as [|r rs IH]; intros bucket.
  - cbn [add_routes]. inversion 1. by eexists.
  - cbn [add_routes].
    destruct (calculate_route_cost c rc r) as [cost|e]; [|done].
    cbn [mbind result_bind].
    destruct (add_route_to_results _ _ _ _) as [res1 [[]|e]] eqn:Hadd; [|done].
    apply add_route_singleton in Hadd as [bucket1 ->]. apply IH.
Qed.

Lemma total_cost_singleton sched c name res :
  calculate_total_cost sched c name = Ok res →
  ∃ bucket, res = {[ "rate_card_" ++ name := bucket ]}.
Proof.
  unfold calculate_total_cost.
  destruct (rate_cards_get c name) as [rc|]; [|done].
  destruct (negb (dict_truthy rc)); [done|].
  destruct (gather sched _) as [route_costs|e]; [|done].
  cbn [mbind result_bind].
  destruct (py_sum route_costs) as [total|e]; [|done].
  cbn [mbind result_bind].
  destruct (add_routes _ _ _ _ _) as [res1|e] eqn:Hadd; [|done].
  apply add_routes_singleton in Hadd as [bucket1 ->].
  cbn [mbind result_bind]. unfold dict_item.
  rewrite lookup_singleton_eq. cbn [mbind result_bind].
  rewrite insert_singleton_eq. inversion 1. by eexists.
Qed.

(** ** All rate cards *)


Lemma process_cards_union sched solo c names (res : results) log :
  (∀ name, name ∈ names → is_Ok (calculate_total_cost (solo name) c name)) →
  ∃ merged,
    (process_cards sched c names res log).2 = Some merged
    ∧ ∀ k bucket,
        merged !! k = Some bucket ↔
        (∃ name frag, name ∈ names
           ∧ calculate_total_cost (solo name) c name = Ok frag
           ∧ frag !! k = Some bucket)
        ∨ ((∀ name, name ∈ names → k ≠ "rate_card_" ++ name)
           ∧ res !! k = Some bucket).
Proof.
  revert res log. induction names as [|name names IH]; intros res log Hok.
  - exists res. split; [done|]. intros k bucket. split.
    + intros H. right. split; [|done]. intros name Hin.
      by apply elem_of_nil in Hin.
    + intros [(name & frag & Hin & _)|[_ H]]; [|done].
      by apply elem_of_nil in Hin.
  - destruct (Hok name) as [frag Hfrag]; [by left|].
    pose proof (total_cost_sched _ (sched name) _ _ _ Hfrag) as Hrun.
    destruct (total_cost_singleton _ _ _ _ Hfrag) as [b Hb].
    cbn [process_cards]. rewrite Hrun.
    destruct (IH (frag ∪ res) (log ++ [InfoCalculating name])%list)
      as (merged & Hmerged & Hchar).
    { intros n Hn. apply Hok. by right. }
    exists merged. split; [exact Hmerged|].
    intros k bucket. rewrite Hchar. clear Hchar Hmerged. split.
    + intros [(n & f & Hn & Hf & Hk)|[Hfresh Hk]].
      * left. exists n, f. split; [by right|done].
      * destruct (decide (k = "rate_card_" ++ name)) as [->|Hne].
        -- left. exists name, frag. split; [by left|]. split; [done|].
           subst frag. rewrite lookup_union_l' in Hk; [done|].
           rewrite lookup_singleton_eq. by eexists.
        -- right. split.
           ++ intros n [->|Hn]%elem_of_cons; auto.
           ++ subst frag.
              by rewrite lookup_union_r in Hk
                by by apply lookup_singleton_ne.
    + intros [(n & f & Hn & Hf & Hk)|[Hfresh Hk]].
      * destruct (decide (n ∈ names)) as [Hin|Hnotin];
          [left; by exists n, f|].
        apply elem_of_cons in Hn as [->|Hn]; [|done].
        assert (f = frag) as -> by congruence. subst frag.
        right. split.
        -- intros n Hn Heq.
           apply lookup_singleton_Some in Hk as [<- _].
           apply (inj (String.app "rate_card_")) in Heq. by subst n.
        -- rewrite lookup_union_l'; [done|].
           apply lookup_singleton_Some in Hk as [<- _].
           rewrite lookup_singleton_eq. by eexists.
      * right. split; [intros n Hn; apply Hfresh; by right|].
        subst frag. rewrite lookup_union_r; [done|].
        apply lookup_singleton_ne. intros Heq. eapply Hfresh; [by left|done].
Qed.



(** An exception raised for any rate card ends [process_graph] with
    Python's [None], after an error record is logged. *)
Lemma process_cards_error sched c names (res : results) log name :
  name ∈ names →
  is_Err (calculate_total_cost (sched name) c name) →
  (process_cards sched c names res log).2 = None
  ∧ ∃ log' e, (process_cards sched c names res log).1
              = (log' ++ [ErrorProcessing e])%list.
Proof.
  intros Hin [e He]. revert res log.
  induction names as [|n names IH]; intros res log;
    [by apply elem_of_nil in Hin|].
  cbn [process_cards].
  destruct (calculate_total_cost (sched n) c n) as [frag|e'] eqn:Hn.
  - apply elem_of_cons in Hin as [->|Hin]; [congruence|]. by apply IH.
  - split; [done|]. by eexists _, _.
Qed.

(** C7. [process_graph] does not let the exception of a rate card escape,
    and it logs it; but what the caller then receives is Python's [None],
    not a dict.  With a second rate card whose [Cabinet] price is a string,
    the first card's fragment is computed and then dropped; with an edge
    that has no [length], the first card already raises. *)
Theorem process_graph_error_returns_None :
  is_Ok (calculate_total_cost []
           {| graph := Fixture.test_graph;
              rate_cards := [("rate_card_a", Fixture.rate_card_a);
                             ("rate_card_b", Fixture.rate_card_quoted)] |}
           "rate_card_a")
  ∧ process_graph (λ _, [])
      {| graph := Fixture.test_graph;
         rate_cards := [("rate_card_a", Fixture.rate_card_a);
                        ("rate_card_b", Fixture.rate_card_quoted)] |}
    = ([InfoCalculating "rate_card_a"; InfoCalculating "rate_card_b";
        ErrorProcessing (TypeError OpAdd TStr TInt)], None)
  ∧ process_graph (λ _, [])
      {| graph := Fixture.graph_without_length;
         rate_cards := rate_cards Fixture.calculator |}
    = ([InfoCalculating "rate_card_a";
        ErrorProcessing (TypeError OpMul TNoneType TInt)], None).
Proof.
  split; [eexists; vm_compute; reflexivity|].
  split; vm_compute; reflexivity.
Qed.

Lemma is_Ok_alt {A} (r : result A) :
  match r with Ok _ => True | Err _ => False end → is_Ok r.
Proof. destruct r; [by eexists|done]. Qed.

Lemma is_Some_compute {A} (o : option A) :
  match o with Some _ => True | None => False end → is_Some o.
Proof. destruct o; [by eexists|done]. Qed.

(** ** Normalised rate-card names *)

Lemma normalize_char_idem (a : ascii) :
  let b := if decide (lower_ascii a = " "%char) then "_"%char
           else lower_ascii a in
  (if decide (lower_ascii b = " "%char) then "_"%char else lower_ascii b) = b.
Proof. destruct a as [[] [] [] [] [] [] [] []]; vm_compute; reflexivity. Qed.


Lemma normalize_name_idem (s : string) :
  normalize_name (normalize_name s) = normalize_name s.
Proof.
  induction s as [|a s IH]; [done|].
  cbn [normalize_name]. f_equal; [apply normalize_char_idem|exact IH].
Qed.


(** X1. Normalising a rate-card name twice is the same as normalising it
    once. *)
Theorem normalize_name_idempotent (s : string) :
  normalize_name (normalize_name s) = normalize_name s.
Proof.
  induction s as [|a s IH]; [reflexivity|].
  cbn [normalize_name]. rewrite IH. f_equal.
  apply normalize_char_idem.
Qed.


(** ** The rate cards that [__init__] stores *)

Lemma list_to_map_alist_set {A} (d : list (string * A)) k v :
  (list_to_map (alist_set d k v) : gmap string A) = <[k := v]> (list_to_map d).
Proof.
  induction d as [|[k' v'] d IH]; [done|].
  cbn [alist_set]. case_decide as Hk.
  - subst k'. cbn [list_to_map foldr uncurry]. by rewrite insert_insert_eq.
  - cbn [list_to_map foldr uncurry].
    change (foldr (λ p, <[p.1:=p.2]>) ∅ (alist_set d k v))
      with (list_to_map (alist_set d k v) : gmap string A).
    rewrite IH. by apply insert_insert_ne.
Qed.

Lemma alist_set_keys {A} (d : list (string * A)) k v :
  (alist_set d k v).*1
  = if decide (k ∈ d.*1) then d.*1 else (d.*1 ++ [k])%list.
Proof.
  induction d as [|[k' v'] d IH].
  - cbn. case_decide as H; [by apply elem_of_nil in H|done].
  - cbn [alist_set]. destruct (decide (k = k')) as [<-|Hk].
    + cbn. rewrite decide_True; [done|by left].
    + cbn [fmap list_fmap fst]. cbn [fmap] in IH. rewrite IH.
      destruct (decide (k ∈ d.*1)) as [Hin|Hnin].
      * rewrite decide_True; [done|by right].
      * rewrite decide_False; [done|].
        intros [?|?]%elem_of_cons; [by subst|done].
Qed.

Lemma alist_set_NoDup {A} (d : list (string * A)) k v :
  NoDup d.*1 → NoDup (alist_set d k v).*1.
Proof.
  intros Hd. rewrite alist_set_keys. case_decide as Hk; [done|].
  apply NoDup_app. split; [done|]. split; [|apply NoDup_singleton].
  intros x Hx ->%list_elem_of_singleton. done.
Qed.

Lemma record_key_Some rc k :
  record_key rc = Some k ↔ ∃ s, rc !! "name" = Some (VStr s) ∧ k = normalize_name s.
Proof.
  unfold record_key. destruct (rc !! "name") as [[| |s]|]; split;
    try (intros [s' [? ?]]; discriminate); try discriminate.
  - intros [= <-]. by exists s.
  - intros (s' & [= <-] & ->). done.
Qed.

Lemma index_from_NoDup acc records cards :
  NoDup acc.*1 → index_rate_cards_from acc records = Ok cards →
  NoDup cards.*1.
Proof.
  revert acc. induction records as [|rc records IH]; intros acc Hacc Hok.
  - cbn in Hok. by inversion Hok; subst.
  - cbn [index_rate_cards_from] in Hok. unfold dict_item in Hok.
    destruct (rc !! "name") as [[| |s]|]; try discriminate.
    cbn [mbind result_bind] in Hok.
    eapply IH; [|exact Hok]. by apply alist_set_NoDup.
Qed.

Lemma index_from_ok_iff acc records :
  is_Ok (index_rate_cards_from acc records)
  ↔ Forall (λ rc : rate_card, ∃ s, rc !! "name" = Some (VStr s)) records.
Proof.
  revert acc. induction records as [|rc records IH]; intros acc.
  - split; [constructor|by eexists].
  - cbn [index_rate_cards_from]. unfold dict_item. rewrite Forall_cons.
    destruct (rc !! "name") as [[| |s]|] eqn:Hname; cbn [mbind result_bind].
    + split; [by intros [? ?]|by intros [[? ?] _]].
    + split; [by intros [? ?]|by intros [[? ?] _]].
    + rewrite IH. split; [intros ?; split; [by eexists|done]|by intros [_ ?]].
    + split; [by intros [? ?]|by intros [[? ?] _]].
Qed.

Lemma index_from_lookup acc records cards :
  index_rate_cards_from acc records = Ok cards →
  ∀ k rc,
    (list_to_map cards : gmap string rate_card) !! k = Some rc ↔
    (∃ l1 l2, records = (l1 ++ rc :: l2)%list ∧ record_key rc = Some k
              ∧ Forall (λ rc', record_key rc' ≠ Some k) l2)
    ∨ (Forall (λ rc', record_key rc' ≠ Some k) records
       ∧ (list_to_map acc : gmap string rate_card) !! k = Some rc).
Proof.
  revert acc. induction records as [|rc0 records IH]; intros acc Hok k rc.
  - cbn in Hok. inversion Hok; subst cards. split.
    + intros H. right. by split; [constructor|].
    + intros [(l1 & l2 & Hl & _)|[_ H]]; [|done]. by destruct l1.
  - cbn [index_rate_cards_from] in Hok. unfold dict_item in Hok.
    destruct (rc0 !! "name") as [[| |s]|] eqn:Hname; try discriminate.
    cbn [mbind result_bind] in Hok.
    assert (record_key rc0 = Some (normalize_name s)) as Hkey0
      by (unfold record_key; by rewrite Hname).
    rewrite (IH _ Hok k rc), list_to_map_alist_set. clear IH Hok. split.
    + intros [(l1 & l2 & -> & Hk & Hl2)|[Hall Hlook]].
      * left. by exists (rc0 :: l1), l2.
      * destruct (decide (normalize_name s = k)) as [<-|Hne].
        -- rewrite lookup_insert_eq in Hlook. injection Hlook as <-.
           left. by exists [], records.
        -- rewrite lookup_insert_ne in Hlook by done.
           right. split; [|done]. constructor; [congruence|done].
    + intros [(l1 & l2 & Hl & Hk & Hl2)|[Hall Hlook]].
      * destruct l1 as [|r l1]; cbn in Hl; injection Hl as -> ->.
        -- right. split; [done|].
           rewrite Hkey0 in Hk. injection Hk as <-. apply lookup_insert_eq.
        -- left. by exists l1, l2.
      * apply Forall_cons in Hall as [Hne Hall]. right. split; [done|].
        rewrite lookup_insert_ne; [done|]. congruence.
Qed.

Lemma exists_last_record k (records : list rate_card) :
  Exists (λ rc, record_key rc = Some k) records →
  ∃ l1 rc l2, records = (l1 ++ rc :: l2)%list ∧ record_key rc = Some k
              ∧ Forall (λ rc', record_key rc' ≠ Some k) l2.
Proof.
  induction records as [|rc0 records IH]; [by inversion 1|].
  intros Hex.
  destruct (decide (Exists (λ rc, record_key rc = Some k) records))
    as [Hlater|Hnone].
  - destruct (IH Hlater) as (l1 & rc & l2 & -> & Hk & Hl2).
    by exists (rc0 :: l1), rc, l2.
  - apply Exists_cons in Hex as [Hk|?]; [|done].
    exists [], rc0, records. split; [done|]. split; [done|].
    by apply Forall_Exists_neg.
Qed.

Lemma init_inv g records c :
  init g records = Ok c →
  graph c = g ∧ index_rate_cards_from [] records = Ok (rate_cards c).
Proof.
  unfold init, index_rate_cards.
  destruct (index_rate_cards_from [] records) as [cards|]; [|discriminate].
  cbn [mbind result_bind]. by inversion 1.
Qed.

Lemma init_lookup g records c k rc :
  init g records = Ok c →
  rate_cards_get c k = Some rc ↔
  ∃ l1 l2, records = (l1 ++ rc :: l2)%list ∧ record_key rc = Some k
           ∧ Forall (λ rc', record_key rc' ≠ Some k) l2.
Proof.
  intros [_ Hcards]%init_inv. unfold rate_cards_get.
  rewrite (index_from_lookup _ _ _ Hcards k rc).
  split; [|by left]. intros [H|[_ H]]; [done|].
  by rewrite list_to_map_nil, lookup_empty in H.
Qed.

Lemma init_key_elem g records c k :
  init g records = Ok c →
  k ∈ rate_cards_keys c ↔ ∃ rc, rc ∈ records ∧ record_key rc = Some k.
Proof.
  intros Hinit. split.
  - intros Hk.
    destruct (rate_cards_get c k) as [rc|] eqn:Hrc.
    + apply (init_lookup _ _ _ _ _ Hinit) in Hrc as (l1 & l2 & -> & Hkey & _).
      exists rc. split; [|done]. apply elem_of_app. right. by left.
    + unfold rate_cards_get in Hrc. by apply not_elem_of_list_to_map in Hrc.
  - intros (rc & Hin & Hkey).
    destruct (exists_last_record k records) as (l1 & rc' & l2 & Hl & Hk' & Hl2).
    { apply Exists_exists. by exists rc. }
    assert (rate_cards_get c k = Some rc') as Hget
      by (apply (init_lookup _ _ _ _ _ Hinit); by exists l1, l2).
    unfold rate_cards_get in Hget.
    destruct (decide (k ∈ rate_cards_keys c)) as [|Hnot]; [done|].
    apply not_elem_of_list_to_map_1 in Hnot. congruence.
Qed.

Lemma init_key_normalized g records c k :
  init g records = Ok c → k ∈ rate_cards_keys c → normalize_name k = k.
Proof.
  intros Hinit Hk.
  apply (init_key_elem _ _ _ _ Hinit) in Hk as (rc & _ & Hkey).
  apply record_key_Some in Hkey as (s & _ & ->). apply normalize_name_idem.
Qed.

(** X3. [__init__] succeeds exactly when every record that was loaded holds
    a string under ["name"]. *)
Theorem init_succeeds_iff (g : Graph) (records : list rate_card) :
  is_Ok (init g records)
  ↔ Forall (λ rc : rate_card, ∃ s, rc !! "name" = Some (VStr s)) records.
Proof.
  rewrite <- (index_from_ok_iff [] records).
  unfold init, index_rate_cards.
  destruct (index_rate_cards_from [] records) as [cards|e];
    cbn [mbind result_bind]; split; intros [x Hx]; try discriminate;
    by eexists.
Qed.

Lemma init_succeeds_iff_witness :
  ¬ is_Ok (init Fixture.empty_graph [Fixture.rate_card_a; {[ "Pot" := VInt 1 ]}]).
Proof.
  intros H.
  apply (proj1 (init_succeeds_iff Fixture.empty_graph
                  [Fixture.rate_card_a; {[ "Pot" := VInt 1 ]}])) in H.
  apply Forall_cons in H as [_ H]. apply Forall_cons in H as [[s Hs] _].
  vm_compute in Hs. discriminate.
Defined.

(** X4. In a calculator that [__init__] built, the graph is the one that
    was loaded, no rate-card key occurs twice, and the keys are exactly the
    normalised names of the loaded records. *)
Theorem init_keys (g : Graph) (records : list rate_card) (c : Calculator) :
  init g records = Ok c →
  graph c = g
  ∧ NoDup (rate_cards_keys c)
  ∧ ∀ k, k ∈ rate_cards_keys c
         ↔ ∃ rc s, rc ∈ records ∧ rc !! "name" = Some (VStr s)
                   ∧ k = normalize_name s.
Proof.
  intros Hinit. destruct (init_inv _ _ _ Hinit) as [Hg Hcards].
  split; [done|]. split.
  - eapply index_from_NoDup; [|exact Hcards]. constructor.
  - intros k. rewrite (init_key_elem _ _ _ _ Hinit). split.
    + intros (rc & Hin & (s & Hs & ->)%record_key_Some). by exists rc, s.
    + intros (rc & s & Hin & Hs & ->). exists rc. split; [done|].
      apply record_key_Some. by exists s.
Qed.

Lemma init_keys_witness :
  NoDup (rate_cards_keys Fixture.calculator).
Proof.
  apply (init_keys Fixture.test_graph
           [Fixture.rate_card_a; Fixture.rate_card_b] Fixture.calculator).
  vm_compute. reflexivity.
Defined.

(** X5. When several loaded records have the same normalised name, the
    calculator keeps the last of them: the rate card found under a key is
    the last record of the loaded list whose normalised name is that key. *)
Theorem init_last_record_wins (g : Graph) (records : list rate_card)
    (c : Calculator) (k : string) (rc : rate_card) :
  init g records = Ok c →
  rate_cards_get c k = Some rc ↔
  ∃ l1 l2, records = (l1 ++ rc :: l2)%list
           ∧ record_key rc = Some k
           ∧ Forall (λ rc', record_key rc' ≠ Some k) l2.
Proof.
  intros Hinit. destruct (init_inv _ _ _ Hinit) as [_ Hcards].
  unfold rate_cards_get.
  rewrite (index_from_lookup _ _ _ Hcards k rc).
  split; [|by left]. intros [Hlast|[_ Hacc]]; [exact Hlast|].
  by rewrite list_to_map_nil, lookup_empty in Hacc.
Qed.

Lemma init_last_record_wins_witness :
  rate_cards_get
    {| graph := Fixture.empty_graph;
       rate_cards := [("rate_card_a",
                       {[ "name" := VStr "rate_card_a"; "Pot" := VInt 2 ]})] |}
    "rate_card_a"
  = Some {[ "name" := VStr "rate_card_a"; "Pot" := VInt 2 ]}.
Proof.
  apply (init_last_record_wins Fixture.empty_graph
           [ {[ "name" := VStr "Rate Card A"; "Pot" := VInt 1 ]};
             {[ "name" := VStr "rate_card_a"; "Pot" := VInt 2 ]} ]).
  - vm_compute. reflexivity.
  - exists [ {[ "name" := VStr "Rate Card A"; "Pot" := VInt 1 ]} ], [].
    split; [reflexivity|]. split; [vm_compute; reflexivity|constructor].
Defined.

(** X6. [calculate_total_cost] does not normalise the name it is given: in
    a calculator that [__init__] built, a name with a space or an ASCII
    capital letter is never found. *)
Theorem unnormalized_name_not_found (sched : list nat) (g : Graph)
    (records : list rate_card) (c : Calculator) (name : string) :
  init g records = Ok c →
  normalize_name name ≠ name →
  calculate_total_cost sched c name = Err (ValueError (not_found_msg name)).
Proof.
  intros Hinit Hname. apply total_cost_not_found, rate_cards_get_absent.
  intros Hin. apply Hname. by eapply init_key_normalized.
Qed.

Lemma unnormalized_name_not_found_witness :
  calculate_total_cost [] Fixture.calculator "Rate Card A"
  = Err (ValueError "Rate card 'Rate Card A' not found.").
Proof.
  apply (unnormalized_name_not_found [] Fixture.test_graph
           [Fixture.rate_card_a; Fixture.rate_card_b]).
  - vm_compute. reflexivity.
  - vm_compute. discriminate.
Defined.

(** ** More on the cost of a route *)

Lemma get_node_price_cases rc t :
  get_node_price rc t = VInt 0 ∨ rc !! t = Some (get_node_price rc t).
Proof. unfold get_node_price. destruct (rc !! t); auto. Qed.

(** X7. The integer cost of a route does not depend on the direction in
    which the edge is read: swapping its two end nodes gives the same
    cost. *)
Theorem route_cost_symmetric (c : Calculator) (rc : rate_card)
    (start_node end_node : string) (d : edge_data) (z : Z) :
  calculate_route_cost c rc (start_node, end_node, d) = Ok (VInt z) →
  calculate_route_cost c rc (end_node, start_node, d) = Ok (VInt z).
Proof.
  unfold calculate_route_cost.
  destruct (get_node_type c start_node) as [ts|]; [|done].
  destruct (get_node_type c end_node) as [te|]; [|done].
  cbn [mbind result_bind].
  destruct (py_mul _ _) as [t|]; [|done]. cbn [mbind result_bind].
  destruct (get_node_price rc ts) as [| a | a], t as [| t | t],
    (get_node_price rc te) as [| b | b]; cbn; try discriminate.
  intros [= <-]. do 2 f_equal. lia.
Qed.

Lemma route_cost_symmetric_witness :
  calculate_route_cost Fixture.calculator Fixture.rate_card_a
    ("B", "A", Fixture.edge_ab) = Ok (VInt 3600).
Proof.
  apply (route_cost_symmetric Fixture.calculator Fixture.rate_card_a "A" "B").
  vm_compute. reflexivity.
Defined.

(** X8. With a length that is not negative and a rate card whose integer
    prices are not negative, an integer route cost is not negative. *)
Theorem route_cost_nonneg (c : Calculator) (rc : rate_card)
    (start_node end_node : string) (d : edge_data) (len z : Z) :
  (∀ k p, rc !! k = Some (VInt p) → (0 ≤ p)%Z) →
  d !! "length" = Some (VInt len) → (0 ≤ len)%Z →
  calculate_route_cost c rc (start_node, end_node, d) = Ok (VInt z) →
  (0 ≤ z)%Z.
Proof.
  intros Hprices Hlen Hlen0. unfold calculate_route_cost.
  destruct (get_node_type c start_node) as [ts|]; [|done].
  destruct (get_node_type c end_node) as [te|]; [|done].
  cbn [mbind result_bind]. unfold dict_get at 1. rewrite Hlen.
  cbn [from_option id].
  assert (∀ k p, default (VInt 0) (rc !! k) = VInt p → (0 ≤ p)%Z) as Hdef.
  { intros k p. destruct (rc !! k) as [v|] eqn:Hk; cbn.
    - intros ->. by eapply Hprices.
    - intros [= <-]. done. }
  pose proof (Hdef ts) as Hs. pose proof (Hdef te) as He.
  pose proof (Hdef (trench_key (dict_get d "material"))) as Ht.
  unfold get_node_price.
  destruct (default (VInt 0) (rc !! ts)) as [| a | a];
    destruct (default (VInt 0) (rc !! trench_key (dict_get d "material")))
      as [| t | t];
    destruct (default (VInt 0) (rc !! te)) as [| b | b];
    cbn; try discriminate.
  intros [= <-].
  specialize (Hs a eq_refl). specialize (He b eq_refl).
  specialize (Ht t eq_refl). nia.
Qed.

Lemma route_cost_nonneg_witness : (0 ≤ 3600)%Z.
Proof.
  apply (route_cost_nonneg Fixture.calculator Fixture.scenario_card "A" "B"
           Fixture.edge_ab 50 3600).
  - intros k p Hk.
    destruct (decide (k = "Cabinet")) as [->|?];
      [vm_compute in Hk; injection Hk as <-; lia|].
    destruct (decide (k = "Pot")) as [->|?];
      [vm_compute in Hk; injection Hk as <-; lia|].
    destruct (decide (k = "Trench/m (verge)")) as [->|?];
      [vm_compute in Hk; injection Hk as <-; lia|].
    unfold Fixture.scenario_card in Hk. cbn [list_to_map foldr uncurry] in Hk.
    rewrite !lookup_insert_ne, lookup_empty in Hk by done. discriminate.
  - vm_compute. reflexivity.
  - lia.
  - vm_compute. reflexivity.
Defined.

(** ** Route keys and result buckets *)

Lemma dashes_split (s1 s2 e1 e2 : string) :
  Forall (λ a, a ≠ "-"%char) (chars s1) →
  Forall (λ a, a ≠ "-"%char) (chars s2) →
  s1 ++ "--" ++ e1 = s2 ++ "--" ++ e2 → s1 = s2 ∧ e1 = e2.
Proof.
  revert s2. induction s1 as [|a1 s1 IH]; intros [|a2 s2] H1 H2 Heq.
  - split; [done|]. by injection Heq.
  - cbn [chars] in H2. apply Forall_cons in H2 as [Ha _].
    injection Heq as Ha' _. by subst a2.
  - cbn [chars] in H1. apply Forall_cons in H1 as [Ha _].
    injection Heq as Ha' _. by subst a1.
  - cbn [chars] in H1, H2.
    apply Forall_cons in H1 as [_ H1]. apply Forall_cons in H2 as [_ H2].
    injection Heq as -> Heq. destruct (IH s2 H1 H2 Heq) as [-> ->]. done.
Qed.

(** X9. Two routes whose start nodes have no hyphen in their ids get the
    same route key only when they join the same two nodes; with hyphens in
    the ids different pairs of nodes can share a key, as a node id may
    absorb the separator. *)
Theorem route_key_injective :
  (∀ s1 e1 s2 e2 : string,
     Forall (λ a, a ≠ "-"%char) (chars s1) →
     Forall (λ a, a ≠ "-"%char) (chars s2) →
     route_key s1 e1 = route_key s2 e2 → s1 = s2 ∧ e1 = e2)
  ∧ (∀ s m e : string,
       route_key (s ++ "--" ++ m) e = route_key s (m ++ "--" ++ e)).
Proof.
  split.
  - intros s1 e1 s2 e2 H1 H2 Heq. unfold route_key in Heq.
    apply (inj (String.app "route_")) in Heq. by apply dashes_split.
  - intros s m e. unfold route_key. by rewrite !str_app_assoc.
Qed.

Lemma route_key_injective_witness : route_key "A" "B" ≠ route_key "B" "A".
Proof.
  intros Heq.
  destruct (proj1 route_key_injective "A" "B" "B" "A") as [Hs _];
    [repeat constructor; discriminate..|exact Heq|discriminate Hs].
Defined.

Lemma route_key_not_total (s e name : string) :
  route_key s e ≠ ("rate_card_" ++ name) ++ "_routes_total".
Proof.
  unfold route_key. rewrite str_app_assoc. intros H. by injection H.
Qed.

(** X10. A call of [add_route_to_results] touches one bucket only.  The
    buckets of the other rate cards are as before, and the bucket of
    [results_key] exists afterwards.  The call returns exactly when the
    edge has both attributes, and then the bucket is the old one (empty
    when it was missing) with the route's record stored under its route
    key; when the call raises, the bucket is the old one, or a new empty
    one. *)
Theorem add_route_to_results_frame (res : results) (results_key : string)
    (start_node end_node : string) (d : edge_data) (cost : value) :
  let out := add_route_to_results res results_key (start_node, end_node, d)
               cost in
  (∀ k, k ≠ results_key → out.1 !! k = res !! k)
  ∧ (out.2 = Ok () ↔ is_Some (d !! "length") ∧ is_Some (d !! "material"))
  ∧ (∀ len mat,
       d !! "length" = Some len → d !! "material" = Some mat →
       out.1 !! results_key
       = Some (<[route_key start_node end_node := ERoute len mat cost]>
                 (default ∅ (res !! results_key))))
  ∧ (is_Err out.2 →
     out.1 !! results_key = Some (default ∅ (res !! results_key))).
Proof.
  cbn zeta. unfold add_route_to_results.
  set (res1 := match res !! results_key with
               | Some _ => res
               | None => <[results_key:=∅]> res
               end).
  assert (res1 !! results_key = Some (default ∅ (res !! results_key))) as H1.
  { unfold res1. destruct (res !! results_key) as [b|] eqn:Hb; cbn;
      [done|apply lookup_insert_eq]. }
  assert (∀ k, k ≠ results_key → res1 !! k = res !! k) as H2.
  { intros k Hk. unfold res1. destruct (res !! results_key);
      [done|by apply lookup_insert_ne]. }
  rewrite H1.
  destruct (d !! "length") as [len|], (d !! "material") as [mat|];
    cbn [fst snd].
  - split; [intros k Hk; rewrite lookup_insert_ne by done; by apply H2|].
    split; [split; [by split; eexists|done]|].
    split; [intros ? ? [= <-] [= <-]; apply lookup_insert_eq|].
    by intros [e He].
  - split; [done|].
    split; [split; [done|by intros [_ [? ?]]]|].
    split; [done|]. done.
  - split; [done|].
    split; [split; [done|by intros [[? ?] _]]|].
    split; [done|]. done.
  - split; [done|].
    split; [split; [done|by intros [[? ?] _]]|].
    split; [done|]. done.
Qed.

Lemma add_route_to_results_frame_witness :
  (add_route_to_results {[ "rate_card_b" := ∅ ]} "rate_card_a"
     ("A", "B", Fixture.edge_ab) (VInt 3600)).1 !! "rate_card_a"
  = Some {[ "route_A--B" := ERoute (VInt 50) (VStr "verge") (VInt 3600) ]}.
Proof.
  destruct (add_route_to_results_frame {[ "rate_card_b" := ∅ ]} "rate_card_a"
              "A" "B" Fixture.edge_ab (VInt 3600)) as (_ & _ & Hok & _).
  rewrite (Hok (VInt 50) (VStr "verge")); [|vm_compute; reflexivity..].
  vm_compute. reflexivity.
Defined.

(** ** The two passes of [calculate_total_cost] *)

Lemma mapM_result_cons {A B} (f : A → result B) x (l : list A) :
  mapM f (x :: l) = (y ← f x; k ← mapM f l; mret (y :: k)).
Proof. reflexivity. Qed.

Lemma mapM_id_fmap_Ok {A B} (f : A → result B) (l : list A) (vs : list B) :
  mapM id (f <$> l) = Ok vs ↔ Forall2 (λ x v, f x = Ok v) l vs.
Proof.
  revert vs. induction l as [|x l IH]; intros vs.
  - cbn. split; [intros [= <-]; constructor|by inversion 1].
  - rewrite fmap_cons, mapM_result_cons. cbn [id].
    destruct (f x) as [v|e] eqn:Hx; cbn [mbind result_bind].
    + destruct (mapM id (f <$> l)) as [vs'|e] eqn:Hl;
        cbn [mbind result_bind]; unfold mret, result_ret.
      * split.
        -- intros [= <-]. constructor; [done|]. by apply IH.
        -- inversion 1 as [|? v' ? vs'' Hv Hrest]; subst.
           apply IH in Hrest. congruence.
      * split; [done|].
        inversion 1 as [|? v' ? vs'' Hv Hrest]; subst.
        apply IH in Hrest. congruence.
    + split; [done|]. inversion 1; congruence.
Qed.

Lemma gather_fmap_Ok {A B} sched (f : A → result B) l vs :
  gather sched (f <$> l) = Ok vs ↔ Forall2 (λ x v, f x = Ok v) l vs.
Proof. by rewrite gather_Ok, mapM_id_fmap_Ok. Qed.

Lemma Forall2_Ok_functional {A B} (f : A → result B) l vs1 vs2 :
  Forall2 (λ x v, f x = Ok v) l vs1 → Forall2 (λ x v, f x = Ok v) l vs2 →
  vs1 = vs2.
Proof.
  intros H1. revert vs2. induction H1 as [|x v l vs Hx _ IH]; intros vs2.
  - by inversion 1.
  - inversion 1 as [|? v2 ? vs2' Hx2 Hrest]; subst.
    f_equal; [congruence|by apply IH].
Qed.

Lemma add_route_at res results_key bucket (r : route) cost :
  res !! results_key = Some bucket →
  add_route_to_results res results_key r cost
  = match r.2 !! "length", r.2 !! "material" with
    | Some len, Some mat =>
      (<[results_key := <[key_of_route r := ERoute len mat cost]> bucket]> res,
       Ok ())
    | None, _ => (res, Err (KeyError "length"))
    | Some _, None => (res, Err (KeyError "material"))
    end.
Proof.
  intros Hb. destruct r as [[s e] d]. unfold add_route_to_results.
  cbn [fst snd]. rewrite Hb.
  destruct (d !! "length"); [|done]. destruct (d !! "material"); [|done].
  by rewrite Hb.
Qed.

Lemma nested_set_at (res : results) k1 k2 v bucket :
  res !! k1 = Some bucket →
  nested_set res k1 k2 v = Ok (<[k1 := <[k2 := v]> bucket]> res).
Proof. intros H. unfold nested_set, dict_item. by rewrite H. Qed.

(** The loop of the tests does what the two passes of
    [calculate_total_cost] do between them. *)
Lemma expected_loop_split c rc results_key (res : results) bucket total rs
    res' total' :
  res !! results_key = Some bucket →
  expected_loop c rc results_key res total rs = Ok (res', total') ↔
  (∃ costs, Forall2 (λ r v, calculate_route_cost c rc r = Ok v) rs costs
            ∧ py_sum_from total costs = Ok total')
  ∧ add_routes c rc results_key res rs = Ok res'.
Proof.
  revert res bucket total. induction rs as [|r rs IH]; intros res bucket total Hb.
  - cbn. split.
    + intros [= <- <-]. split; [|done]. exists []. by split; [constructor|].
    + intros [(costs & Hc & Hsum) [= <-]]. inversion Hc; subst.
      cbn in Hsum. by injection Hsum as <-.
  - destruct r as [[s e] d]. cbn [expected_loop add_routes].
    destruct (calculate_route_cost c rc (s, e, d)) as [cost|err] eqn:Hcost;
      cbn [mbind result_bind].
    2:{ split; [done|]. intros [(costs & Hc & _) _].
        inversion Hc; subst. congruence. }
    rewrite (add_route_at res results_key bucket (s, e, d) cost Hb).
    unfold dict_item. cbn [fst snd].
    destruct (d !! "length") as [len|]; cbn [mbind result_bind];
      [|split; [done|by intros [_ ?]]].
    destruct (d !! "material") as [mat|]; cbn [mbind result_bind];
      [|split; [done|by intros [_ ?]]].
    rewrite (nested_set_at res _ _ _ bucket Hb). cbn [mbind result_bind].
    change (key_of_route (s, e, d)) with (route_key s e).
    destruct (py_add total cost) as [total1|err] eqn:Hadd;
      cbn [mbind result_bind].
    2:{ split; [done|]. intros [(costs & Hc & Hsum) _].
        inversion Hc as [|? v ? costs' Hv Hrest]; subst.
        assert (v = cost) as -> by congruence.
        cbn in Hsum. by rewrite Hadd in Hsum. }
    rewrite (IH _ (<[route_key s e := ERoute len mat cost]> bucket) total1)
      by apply lookup_insert_eq.
    split.
    + intros [(costs & Hc & Hsum) Hadd']. split; [|done].
      exists (cost :: costs). split; [by constructor|].
      cbn. by rewrite Hadd.
    + intros [(costs & Hc & Hsum) Hadd']. split; [|done].
      inversion Hc as [|? v ? costs' Hv Hrest]; subst.
      assert (v = cost) as -> by congruence.
      exists costs'. split; [done|]. cbn in Hsum. by rewrite Hadd in Hsum.
Qed.

Lemma total_cost_unfold sched c name rc res :
  rate_cards_get c name = Some rc → dict_truthy rc = true →
  calculate_total_cost sched c name = Ok res ↔
  ∃ costs total res1,
    Forall2 (λ r v, calculate_route_cost c rc r = Ok v) (get_routes c) costs
    ∧ py_sum costs = Ok total
    ∧ add_routes c rc ("rate_card_" ++ name) {[ "rate_card_" ++ name := ∅ ]}
        (get_routes c) = Ok res1
    ∧ nested_set res1 ("rate_card_" ++ name)
        (("rate_card_" ++ name) ++ "_routes_total") (ETotal total) = Ok res.
Proof.
  intros Hrc Htruthy. unfold calculate_total_cost.
  rewrite Hrc, Htruthy. cbn [negb]. split.
  - destruct (gather sched _) as [costs|] eqn:Hg; [|done].
    apply gather_fmap_Ok in Hg. cbn [mbind result_bind].
    destruct (py_sum costs) as [total|] eqn:Hsum; [|done].
    cbn [mbind result_bind].
    destruct (add_routes _ _ _ _ _) as [res1|] eqn:Hadd; [|done].
    cbn [mbind result_bind]. intros H. by exists costs, total, res1.
  - intros (costs & total & res1 & Hc & Hsum & Hadd & Hset).
    apply (gather_fmap_Ok sched) in Hc. rewrite Hc. cbn [mbind result_bind].
    rewrite Hsum. cbn [mbind result_bind]. rewrite Hadd.
    cbn [mbind result_bind]. exact Hset.
Qed.

(** X11. What [test_calculate_total_cost] expects is what
    [calculate_total_cost] returns, on every graph and for every rate card
    that is found and not empty: either of the two returns a dict exactly
    when the other returns the same dict. *)
Theorem total_cost_meets_test_expectation (sched : list nat) (c : Calculator)
    (name : string) (rc : rate_card) (res : results) :
  rate_cards_get c name = Some rc →
  dict_truthy rc = true →
  calculate_total_cost sched c name = Ok res
  ↔ expected_total_cost c name = Ok res.
Proof.
  intros Hrc Htruthy. rewrite (total_cost_unfold _ _ _ _ _ Hrc Htruthy).
  unfold expected_total_cost, rate_cards_item. rewrite Hrc.
  cbn [mbind result_bind]. split.
  - intros (costs & total & res1 & Hc & Hsum & Hadd & Hset).
    assert (expected_loop c rc ("rate_card_" ++ name)
              {[ "rate_card_" ++ name := ∅ ]} (VInt 0) (get_routes c)
            = Ok (res1, total)) as ->; [|done].
    eapply expected_loop_split; [apply lookup_singleton_eq|].
    split; [by exists costs|done].
  - destruct (expected_loop _ _ _ _ _ _) as [[res1 total]|] eqn:Hloop;
      [|done].
    cbn [mbind result_bind]. intros Hset.
    eapply expected_loop_split in Hloop as [(costs & Hc & Hsum) Hadd];
      [|apply lookup_singleton_eq].
    by exists costs, total, res1.
Qed.

Lemma total_cost_meets_test_expectation_witness :
  expected_total_cost Fixture.calculator "rate_card_b"
  = Ok {[ "rate_card_rate_card_b" :=
            {[ "route_A--B" := ERoute (VInt 50) (VStr "verge") (VInt 3220);
               "rate_card_rate_card_b_routes_total" := ETotal (VInt 3220) ]} ]}.
Proof.
  apply (total_cost_meets_test_expectation [] Fixture.calculator
           "rate_card_b" Fixture.rate_card_b);
    vm_compute; reflexivity.
Defined.

(** ** The fragment of one rate card *)

Lemma record_of_route_Some (r : route) cost entry :
  record_of_route r cost = Some entry ↔
  ∃ len mat, r.2 !! "length" = Some len ∧ r.2 !! "material" = Some mat
             ∧ entry = ERoute len mat cost.
Proof.
  unfold record_of_route.
  destruct (r.2 !! "length") as [len|], (r.2 !! "material") as [mat|];
    cbn; split; try discriminate;
    try (by intros (? & ? & ? & ? & ?)).
  - intros [= <-]. by exists len, mat.
  - by intros (? & ? & [= <-] & [= <-] & ->).
Qed.

Lemma add_routes_lookup c rc results_key bucket rs res' :
  add_routes c rc results_key {[ results_key := bucket ]} rs = Ok res' →
  ∃ bucket',
    res' = {[ results_key := bucket' ]}
    ∧ ∀ rk entry,
        bucket' !! rk = Some entry ↔
        (∃ l1 r l2 cost,
           rs = (l1 ++ r :: l2)%list ∧ key_of_route r = rk
           ∧ Forall (λ r', key_of_route r' ≠ rk) l2
           ∧ calculate_route_cost c rc r = Ok cost
           ∧ record_of_route r cost = Some entry)
        ∨ (Forall (λ r', key_of_route r' ≠ rk) rs ∧ bucket !! rk = Some entry).
Proof.
  revert bucket. induction rs as [|r rs IH]; intros bucket.
  - cbn. intros [= <-]. exists bucket. split; [done|]. intros rk entry. split.
    + intros H. right. by split; [constructor|].
    + intros [(l1 & ? & ? & ? & Hl & _)|[_ H]]; [by destruct l1|done].
  - cbn [add_routes].
    destruct (calculate_route_cost c rc r) as [cost|] eqn:Hcost; [|done].
    cbn [mbind result_bind].
    rewrite (add_route_at _ _ bucket r cost) by apply lookup_singleton_eq.
    destruct (r.2 !! "length") as [len|] eqn:Hlen; [|done].
    destruct (r.2 !! "material") as [mat|] eqn:Hmat; [|done].
    rewrite insert_singleton_eq. intros Hadd.
    destruct (IH _ Hadd) as (bucket' & -> & Hchar). clear IH Hadd.
    exists bucket'. split; [done|]. intros rk entry. rewrite Hchar.
    clear Hchar.
    assert (record_of_route r cost = Some (ERoute len mat cost)) as Hrec
      by (apply record_of_route_Some; by exists len, mat).
    split.
    + intros [(l1 & r' & l2 & v & -> & Hk & Hl2 & Hv & Hr)|[Hall Hlook]].
      * left. by exists (r :: l1), r', l2, v.
      * destruct (decide (key_of_route r = rk)) as [<-|Hne].
        -- rewrite lookup_insert_eq in Hlook. injection Hlook as <-.
           left. by exists [], r, rs, cost.
        -- rewrite lookup_insert_ne in Hlook by done.
           right. split; [|done]. by constructor.
    + intros [(l1 & r' & l2 & v & Hl & Hk & Hl2 & Hv & Hr)|[Hall Hlook]].
      * destruct l1 as [|r0 l1]; cbn in Hl; injection Hl as -> ->.
        -- right. split; [done|]. subst rk.
           rewrite lookup_insert_eq. congruence.
        -- left. by exists l1, r', l2, v.
      * apply Forall_cons in Hall as [Hne Hall]. right. split; [done|].
        by rewrite lookup_insert_ne.
Qed.

Lemma total_cost_Ok_found sched c name res :
  calculate_total_cost sched c name = Ok res →
  ∃ rc, rate_cards_get c name = Some rc ∧ dict_truthy rc = true.
Proof.
  unfold calculate_total_cost.
  destruct (rate_cards_get c name) as [rc|]; [|done].
  destruct (dict_truthy rc) eqn:Ht; cbn [negb]; [|done]. intros _. by exists rc.
Qed.

Lemma py_sum_from_ints (a : Z) (zs : list Z) :
  py_sum_from (VInt a) (VInt <$> zs) = Ok (VInt (a + sum_Z zs)).
Proof.
  revert a. induction zs as [|z zs IH]; intros a; cbn.
  - by rewrite Z.add_0_r.
  - change (list_fmap Z value VInt zs) with (VInt <$> zs). rewrite IH.
    unfold sum_Z. cbn. do 2 f_equal. lia.
Qed.

Lemma Forall2_fmap_VInt {A} (f : A → result value) l (zs : list Z) :
  Forall2 (λ r z, f r = Ok (VInt z)) l zs →
  Forall2 (λ r v, f r = Ok v) l (VInt <$> zs).
Proof. induction 1; cbn; by constructor. Qed.

(** X12. A fragment that [calculate_total_cost] returns has one bucket,
    ["rate_card_<name>"].  Its total entry holds the sum of the route
    costs; every other entry is the record of a route, stored under the
    route's key with the edge's length and material and the route's cost,
    and when several routes share a key it is the record of the last of
    them in the graph's order. *)
Theorem total_cost_fragment (sched : list nat) (c : Calculator)
    (name : string) (res : results) :
  calculate_total_cost sched c name = Ok res →
  ∃ rc costs total bucket,
    rate_cards_get c name = Some rc
    ∧ Forall2 (λ r v, calculate_route_cost c rc r = Ok v) (get_routes c) costs
    ∧ py_sum costs = Ok total
    ∧ res = {[ "rate_card_" ++ name := bucket ]}
    ∧ ∀ k entry,
        bucket !! k = Some entry ↔
        (k = "rate_card_" ++ name ++ "_routes_total" ∧ entry = ETotal total)
        ∨ ∃ l1 r l2 cost,
            get_routes c = (l1 ++ r :: l2)%list
            ∧ k = key_of_route r
            ∧ Forall (λ r', key_of_route r' ≠ k) l2
            ∧ calculate_route_cost c rc r = Ok cost
            ∧ record_of_route r cost = Some entry.
Proof.
  intros Hres.
  destruct (total_cost_Ok_found _ _ _ _ Hres) as (rc & Hrc & Htruthy).
  destruct (proj1 (total_cost_unfold _ _ _ _ _ Hrc Htruthy) Hres)
    as (costs & total & res1 & Hc & Hsum & Hadd & Hset).
  apply add_routes_lookup in Hadd as (bucket & -> & Hchar).
  rewrite (nested_set_at _ _ _ _ bucket) in Hset by apply lookup_singleton_eq.
  rewrite insert_singleton_eq in Hset. injection Hset as <-.
  exists rc, costs, total,
    (<[("rate_card_" ++ name) ++ "_routes_total" := ETotal total]> bucket).
  do 4 (split; [done|]).
  intros k entry. rewrite <- str_app_assoc.
  destruct (decide (k = ("rate_card_" ++ name) ++ "_routes_total"))
    as [->|Hne].
  - rewrite lookup_insert_eq. split.
    + intros [= <-]. by left.
    + intros [[_ ->]|(l1 & r & l2 & cost & _ & Hk & _)]; [done|].
      destruct r as [[s e] d]. by apply eq_sym, route_key_not_total in Hk.
  - rewrite lookup_insert_ne by done. rewrite Hchar. split.
    + intros [(l1 & r & l2 & cost & ? & ? & ? & ? & ?)|[_ H]];
        [right; by exists l1, r, l2, cost|].
      by rewrite lookup_empty in H.
    + intros [[? _]|(l1 & r & l2 & cost & ? & ? & ? & ? & ?)]; [done|].
      left. by exists l1, r, l2, cost.
Qed.

Lemma total_cost_fragment_witness :
  ∃ rc costs total (bucket : gmap string result_entry),
    rate_cards_get Fixture.calculator "rate_card_a" = Some rc
    ∧ Forall2 (λ r v, calculate_route_cost Fixture.calculator rc r = Ok v)
        (get_routes Fixture.calculator) costs
    ∧ py_sum costs = Ok total
    ∧ bucket !! "rate_card_rate_card_a_routes_total" = Some (ETotal total).
Proof.
  destruct (total_cost_fragment [] Fixture.calculator "rate_card_a"
              {[ "rate_card_rate_card_a" :=
                   {[ "route_A--B" :=
                        ERoute (VInt 50) (VStr "verge") (VInt 3600);
                      "rate_card_rate_card_a_routes_total" :=
                        ETotal (VInt 3600) ]} ]})
    as (rc & costs & total & bucket & Hrc & Hc & Hsum & _ & Hchar).
  - vm_compute. reflexivity.
  - exists rc, costs, total, bucket. do 3 (split; [done|]).
    apply Hchar. by left.
Defined.

(** X13. When every route of the graph has an integer cost, the total that
    [calculate_total_cost] reports is the sum of those integers. *)
Theorem total_is_sum_of_route_costs (sched : list nat) (c : Calculator)
    (name : string) (rc : rate_card) (res : results) (zs : list Z) :
  rate_cards_get c name = Some rc →
  calculate_total_cost sched c name = Ok res →
  Forall2 (λ r z, calculate_route_cost c rc r = Ok (VInt z))
    (get_routes c) zs →
  ∃ bucket,
    res = {[ "rate_card_" ++ name := bucket ]}
    ∧ bucket !! ("rate_card_" ++ name ++ "_routes_total")
      = Some (ETotal (VInt (sum_Z zs))).
Proof.
  intros Hrc Hres Hzs.
  destruct (total_cost_Ok_found _ _ _ _ Hres) as (rc' & Hrc' & Htruthy).
  assert (rc' = rc) as -> by congruence.
  destruct (proj1 (total_cost_unfold _ _ _ _ _ Hrc Htruthy) Hres)
    as (costs & total & res1 & Hc & Hsum & Hadd & Hset).
  apply add_routes_singleton in Hadd as [bucket ->].
  rewrite (nested_set_at _ _ _ _ bucket) in Hset by apply lookup_singleton_eq.
  rewrite insert_singleton_eq in Hset. injection Hset as <-.
  eexists. split; [done|].
  rewrite <- str_app_assoc, lookup_insert_eq.
  apply Forall2_fmap_VInt in Hzs.
  rewrite (Forall2_Ok_functional _ _ _ _ Hc Hzs) in Hsum.
  unfold py_sum in Hsum. rewrite py_sum_from_ints in Hsum.
  by injection Hsum as <-.
Qed.

Lemma total_is_sum_of_route_costs_witness :
  ∃ bucket : gmap string result_entry,
    bucket !! "rate_card_rate_card_a_routes_total"
    = Some (ETotal (VInt (sum_Z [3600]))).
Proof.
  destruct (total_is_sum_of_route_costs [] Fixture.calculator "rate_card_a"
              Fixture.rate_card_a
              {[ "rate_card_rate_card_a" :=
                   {[ "route_A--B" :=
                        ERoute (VInt 50) (VStr "verge") (VInt 3600);
                      "rate_card_rate_card_a_routes_total" :=
                        ETotal (VInt 3600) ]} ]} [3600])
    as (bucket & _ & Hb).
  - vm_compute. reflexivity.
  - vm_compute. reflexivity.
  - repeat constructor.
  - by exists bucket.
Defined.

(** ** When the total cost is returned, and what is raised otherwise *)

Lemma add_routes_ok_iff c rc results_key bucket rs :
  is_Ok (add_routes c rc results_key {[ results_key := bucket ]} rs)
  ↔ Forall (λ r : route, is_Ok (calculate_route_cost c rc r)
                         ∧ is_Some (r.2 !! "length")
                         ∧ is_Some (r.2 !! "material")) rs.
Proof.
  revert bucket. induction rs as [|r rs IH]; intros bucket.
  - split; [constructor|by eexists].
  - cbn [add_routes]. rewrite Forall_cons.
    destruct (calculate_route_cost c rc r) as [cost|e];
      cbn [mbind result_bind];
      [|split; [by intros [? ?]|by intros [[[? ?] _] _]]].
    rewrite (add_route_at _ _ bucket r cost) by apply lookup_singleton_eq.
    destruct (r.2 !! "length") as [len|];
      [|split; [by intros [? ?]|by intros [(_ & [? ?] & _) _]]].
    destruct (r.2 !! "material") as [mat|];
      [|split; [by intros [? ?]|by intros [(_ & _ & [? ?]) _]]].
    rewrite insert_singleton_eq, IH.
    split; [intros ?; split; [|done]|by intros [_ ?]].
    split; [by eexists|]. by split; eexists.
Qed.

Lemma Forall2_Ok_exists {A B} (f : A → result B) l :
  Forall (λ x, is_Ok (f x)) l ↔ ∃ vs, Forall2 (λ x v, f x = Ok v) l vs.
Proof.
  split.
  - induction 1 as [|x l [v Hv] _ [vs IH]]; [by exists []|].
    exists (v :: vs). by constructor.
  - intros [vs H]. induction H; constructor; [by eexists|done].
Qed.

Lemma total_cost_returns sched c name rc costs :
  rate_cards_get c name = Some rc →
  dict_truthy rc = true →
  Forall2 (λ r v, calculate_route_cost c rc r = Ok v) (get_routes c) costs →
  is_Ok (py_sum costs) →
  Forall (λ r : route, is_Some (r.2 !! "length")
                       ∧ is_Some (r.2 !! "material")) (get_routes c) →
  is_Ok (calculate_total_cost sched c name).
Proof.
  intros Hrc Htruthy Hc [total Hsum] Hattrs.
  assert (is_Ok (add_routes c rc ("rate_card_" ++ name)
                   {[ "rate_card_" ++ name := ∅ ]} (get_routes c)))
    as [res1 Hadd].
  { apply add_routes_ok_iff.
    assert (Forall (λ r, is_Ok (calculate_route_cost c rc r)) (get_routes c))
      as Hcosts by (apply Forall2_Ok_exists; by exists costs).
    rewrite Forall_forall in Hcosts, Hattrs. apply Forall_forall.
    intros r Hr. split; [by apply Hcosts|by apply Hattrs]. }
  destruct (add_routes_singleton _ _ _ _ _ _ Hadd) as [bucket ->].
  eexists. apply (total_cost_unfold _ _ _ _ _ Hrc Htruthy).
  exists costs, total, {[ "rate_card_" ++ name := bucket ]}.
  do 3 (split; [done|]).
  apply nested_set_at, lookup_singleton_eq.
Qed.

(** X14. [calculate_total_cost] returns exactly when the rate card is found
    and is not empty, every route of the graph can be priced, the costs can
    be summed, and every edge has a [length] and a [material]. *)
Theorem total_cost_succeeds_iff (sched : list nat) (c : Calculator)
    (name : string) :
  is_Ok (calculate_total_cost sched c name)
  ↔ ∃ rc costs,
      rate_cards_get c name = Some rc
      ∧ dict_truthy rc = true
      ∧ Forall2 (λ r v, calculate_route_cost c rc r = Ok v) (get_routes c) costs
      ∧ is_Ok (py_sum costs)
      ∧ Forall (λ r : route, is_Some (r.2 !! "length")
                             ∧ is_Some (r.2 !! "material")) (get_routes c).
Proof.
  split.
  - intros [res Hres].
    destruct (total_cost_Ok_found _ _ _ _ Hres) as (rc & Hrc & Htruthy).
    destruct (proj1 (total_cost_unfold _ _ _ _ _ Hrc Htruthy) Hres)
      as (costs & total & res1 & Hc & Hsum & Hadd & _).
    exists rc, costs. do 3 (split; [done|]). split; [by eexists|].
    assert (is_Ok (add_routes c rc ("rate_card_" ++ name)
                     {[ "rate_card_" ++ name := ∅ ]} (get_routes c))) as Hok
      by by eexists.
    apply add_routes_ok_iff in Hok.
    eapply Forall_impl; [exact Hok|]. by intros r (_ & ? & ?).
  - intros (rc & costs & Hrc & Htruthy & Hc & Hsum & Hattrs).
    by eapply total_cost_returns.
Qed.

Lemma total_cost_succeeds_iff_witness :
  ¬ is_Ok (calculate_total_cost []
             {| graph := Fixture.graph_without_length;
                rate_cards := rate_cards Fixture.calculator |}
             "rate_card_a").
Proof.
  intros H.
  apply (proj1 (total_cost_succeeds_iff [] _ "rate_card_a")) in H
    as (rc & costs & _ & _ & _ & _ & Hattrs).
  apply Forall_cons in Hattrs as [[[v Hv] _] _].
  vm_compute in Hv. discriminate.
Defined.











(** ** Well-formed input *)

Lemma price_is_int (rc : rate_card) k :
  (∀ k v, rc !! k = Some v → k ≠ "name" → ∃ p, v = VInt p) →
  k ≠ "name" → ∃ p, default (VInt 0) (rc !! k) = VInt p.
Proof.
  intros Hprices Hk. destruct (rc !! k) as [v|] eqn:Hv; cbn.
  - by eapply Hprices.
  - by exists 0.
Qed.

Lemma trench_key_not_name v : trench_key v ≠ "name".
Proof. unfold trench_key. intros H. by injection H. Qed.

Lemma route_cost_well_formed c rc (r : route) :
  (∀ k v, rc !! k = Some v → k ≠ "name" → ∃ p, v = VInt p) →
  (∀ n attrs, nodes (graph c) !! n = Some attrs →
              attrs !! "type" ≠ Some "name") →
  is_Some (nodes (graph c) !! r.1.1) → is_Some (nodes (graph c) !! r.1.2) →
  (∃ len, r.2 !! "length" = Some (VInt len)) →
  ∃ z, calculate_route_cost c rc r = Ok (VInt z).
Proof.
  intros Hprices Htypes [sa Hs] [ta Ht] [len Hlen].
  destruct r as [[s t] d]. cbn [fst snd] in *.
  unfold calculate_route_cost.
  rewrite (get_node_type_present _ _ _ Hs), (get_node_type_present _ _ _ Ht).
  cbn [mbind result_bind]. unfold dict_get at 1. rewrite Hlen.
  cbn [from_option id]. unfold get_node_price.
  assert (∀ attrs : node_data, attrs !! "type" ≠ Some "name" →
                   default "" (attrs !! "type") ≠ "name") as Hty.
  { intros attrs Hne. destruct (attrs !! "type") as [ty|]; cbn;
      [congruence|discriminate]. }
  destruct (price_is_int rc (default "" (sa !! "type")) Hprices) as [ps ->];
    [by eapply Hty, Htypes|].
  destruct (price_is_int rc (default "" (ta !! "type")) Hprices) as [pe ->];
    [by eapply Hty, Htypes|].
  destruct (price_is_int rc (trench_key (dict_get d "material")) Hprices)
    as [pt ->]; [apply trench_key_not_name|].
  by eexists.
Qed.

(** X16. On well-formed input the total cost is always returned.  When the
    edges join nodes of the graph and have an integer [length] and some
    [material], the rate card is found, holds its ["name"] and otherwise
    only integer prices, and no node has the type ["name"], then every
    route has an integer cost and [calculate_total_cost] returns. *)
Theorem total_cost_well_formed (sched : list nat) (c : Calculator)
    (name : string) (rc : rate_card) :
  endpoints_in_graph (graph c) →
  Forall (λ r : route, (∃ len, r.2 !! "length" = Some (VInt len))
                       ∧ is_Some (r.2 !! "material")) (get_routes c) →
  rate_cards_get c name = Some rc →
  is_Some (rc !! "name") →
  (∀ k v, rc !! k = Some v → k ≠ "name" → ∃ p, v = VInt p) →
  (∀ n attrs, nodes (graph c) !! n = Some attrs →
              attrs !! "type" ≠ Some "name") →
  ∃ zs res,
    Forall2 (λ r z, calculate_route_cost c rc r = Ok (VInt z)) (get_routes c) zs
    ∧ calculate_total_cost sched c name = Ok res.
Proof.
  intros Hend Hedges Hrc [nm Hname] Hprices Htypes.
  assert (∃ zs, Forall2 (λ r z, calculate_route_cost c rc r = Ok (VInt z))
                  (get_routes c) zs) as [zs Hzs].
  { unfold endpoints_in_graph in Hend. unfold get_routes in *.
    induction (edges (graph c)) as [|r rs IH]; [by exists []|].
    apply Forall_cons in Hend as [[Hs Ht] Hend].
    apply Forall_cons in Hedges as [[Hlen _] Hedges].
    destruct (IH Hend Hedges) as [zs Hzs].
    destruct (route_cost_well_formed c rc r Hprices Htypes Hs Ht Hlen)
      as [z Hz].
    exists (z :: zs). by constructor. }
  exists zs. pose proof (Forall2_fmap_VInt _ _ _ Hzs) as Hcosts.
  assert (is_Ok (calculate_total_cost sched c name)) as [res Hres];
    [|by exists res].
  apply (total_cost_returns sched c name rc (VInt <$> zs)); [done| |done| |].
  - by eapply dict_truthy_lookup.
  - unfold py_sum. rewrite py_sum_from_ints. by eexists.
  - eapply Forall_impl; [exact Hedges|]. intros r [[len Hlen] Hmat].
    split; [by eexists|done].
Qed.

Lemma total_cost_well_formed_witness :
  ∃ zs res,
    Forall2 (λ r z, calculate_route_cost Fixture.calculator
                      Fixture.rate_card_a r = Ok (VInt z))
      (get_routes Fixture.calculator) zs
    ∧ calculate_total_cost [] Fixture.calculator "rate_card_a" = Ok res.
Proof.
  apply (total_cost_well_formed [] Fixture.calculator "rate_card_a"
           Fixture.rate_card_a).
  - constructor; [|constructor].
    split; apply is_Some_compute; vm_compute; exact I.
  - constructor; [|constructor].
    split; [exists 50; vm_compute; reflexivity
           |apply is_Some_compute; vm_compute; exact I].
  - vm_compute. reflexivity.
  - apply is_Some_compute. vm_compute. exact I.
  - intros k v Hk Hne. unfold Fixture.rate_card_a in Hk.
    cbn [list_to_map foldr uncurry] in Hk.
    repeat (apply lookup_insert_Some in Hk as [[<- <-]|[_ Hk]];
            [first [by exfalso|by eexists]|]).
    by rewrite lookup_empty in Hk.
  - intros n attrs Hn. cbn in Hn.
    repeat (apply lookup_insert_Some in Hn as [[<- <-]|[_ Hn]]; [done|]).
    by rewrite lookup_empty in Hn.
Defined.

(** X17. A node whose type is ["name"] is priced with the name of the rate
    card: for an integer length and an integer trench rate the route cost
    is then not returned, a string cannot be added to the trench cost. *)
Theorem node_type_name_raises (c : Calculator) (rc : rate_card)
    (start_node end_node : string) (d : edge_data) (sa : node_data)
    (nm : string) (len rate : Z) :
  nodes (graph c) !! start_node = Some sa →
  sa !! "type" = Some "name" →
  is_Some (nodes (graph c) !! end_node) →
  rc !! "name" = Some (VStr nm) →
  d !! "length" = Some (VInt len) →
  default (VInt 0) (rc !! trench_key (dict_get d "material")) = VInt rate →
  calculate_route_cost c rc (start_node, end_node, d)
  = Err (TypeError OpAdd TStr TInt).
Proof.
  intros Hs Hty [ta Ht] Hname Hlen Hrate. unfold calculate_route_cost.
  rewrite (get_node_type_present _ _ _ Hs), (get_node_type_present _ _ _ Ht).
  cbn [mbind result_bind]. unfold dict_get at 1. rewrite Hlen, Hrate, Hty.
  cbn [from_option id]. unfold get_node_price. by rewrite Hname.
Qed.

Lemma node_type_name_raises_witness :
  calculate_route_cost
    {| graph := {| nodes := {[ "A" := {[ "type" := "name" ]};
                               "B" := {[ "type" := "Pot" ]} ]};
                   edges := [] |};
       rate_cards := [] |}
    Fixture.rate_card_a ("A", "B", Fixture.edge_ab)
  = Err (TypeError OpAdd TStr TInt).
Proof.
  apply (node_type_name_raises _ Fixture.rate_card_a "A" "B" Fixture.edge_ab
           {[ "type" := "name" ]} "Rate Card A" 50 50).
  - vm_compute. reflexivity.
  - vm_compute. reflexivity.
  - by eexists.
  - vm_compute. reflexivity.
  - vm_compute. reflexivity.
  - vm_compute. reflexivity.
Defined.

(** ** The batch over all rate cards *)

Lemma process_cards_stops sched c pre name post (res : results) log e :
  Forall (λ n, is_Ok (calculate_total_cost (sched n) c n)) pre →
  calculate_total_cost (sched name) c name = Err e →
  process_cards sched c (pre ++ name :: post) res log
  = ((log ++ (InfoCalculating <$> pre ++ [name]) ++ [ErrorProcessing e])%list,
     None).
Proof.
  intros Hpre Herr. revert res log.
  induction Hpre as [|n pre [frag Hn] _ IH]; intros res log.
  - cbn [app process_cards]. rewrite Herr. cbn. by rewrite <- !app_assoc.
  - cbn [app process_cards]. rewrite Hn, IH. cbn. by rewrite <- !app_assoc.
Qed.

Lemma process_cards_completes sched c names (res : results) log :
  Forall (λ n, is_Ok (calculate_total_cost (sched n) c n)) names →
  (process_cards sched c names res log).1
  = (log ++ (InfoCalculating <$> names) ++ [InfoCompleted])%list
  ∧ is_Some (process_cards sched c names res log).2.
Proof.
  intros Hall. revert res log.
  induction Hall as [|n names [frag Hn] _ IH]; intros res log.
  - cbn. split; [done|by eexists].
  - cbn [process_cards]. rewrite Hn.
    destruct (IH (frag ∪ res) (log ++ [InfoCalculating n])%list) as [-> Hsome].
    split; [|done]. cbn. by rewrite <- !app_assoc.
Qed.

Lemma first_failure (P : string → Prop) `{∀ n, Decision (P n)} names :
  ¬ Forall P names →
  ∃ pre name post, names = (pre ++ name :: post)%list ∧ Forall P pre ∧ ¬ P name.
Proof.
  induction names as [|n names IH]; intros Hnot.
  - destruct Hnot. constructor.
  - destruct (decide (P n)) as [Hn|Hn].
    + destruct IH as (pre & name & post & -> & Hpre & Hname).
      { intros Hall. apply Hnot. by constructor. }
      exists (n :: pre), name, post. split; [done|]. by split; [constructor|].
    + exists [], n, names. by split; [|split; [constructor|]].
Qed.

Lemma process_graph_stops_at_first_error_aux sched c pre post name e :
  rate_cards_keys c = (pre ++ name :: post)%list →
  Forall (λ n, is_Ok (calculate_total_cost (sched n) c n)) pre →
  calculate_total_cost (sched name) c name = Err e →
  process_graph sched c
  = (((InfoCalculating <$> pre ++ [name]) ++ [ErrorProcessing e])%list, None).
Proof.
  intros Hkeys Hpre Herr. unfold process_graph. rewrite Hkeys.
  by rewrite (process_cards_stops _ _ _ _ _ _ _ e Hpre Herr).
Qed.

(** X18. [process_graph] stops at the first rate card, in the order of the
    keys, whose computation raises: it returns [None], the rate cards
    after that one are not computed, and what was logged is one record
    for each rate card up to and including that one, then the error. *)
Theorem process_graph_stops_at_first_error (sched : string → list nat)
    (c : Calculator) (pre post : list string) (name : string) (e : exn) :
  rate_cards_keys c = (pre ++ name :: post)%list →
  Forall (λ n, is_Ok (calculate_total_cost (sched n) c n)) pre →
  calculate_total_cost (sched name) c name = Err e →
  process_graph sched c
  = (((InfoCalculating <$> pre ++ [name]) ++ [ErrorProcessing e])%list, None).
Proof.
  intros Hkeys Hpre Herr. unfold process_graph. rewrite Hkeys.
  rewrite (process_cards_stops sched c pre name post ∅ [] e Hpre Herr).
  reflexivity.
Qed.

Lemma process_graph_stops_at_first_error_witness :
  process_graph (λ _, [])
    {| graph := Fixture.test_graph;
       rate_cards := [("rate_card_a", Fixture.rate_card_a);
                      ("rate_card_b", Fixture.rate_card_quoted);
                      ("rate_card_c", Fixture.rate_card_b)] |}
  = ([InfoCalculating "rate_card_a"; InfoCalculating "rate_card_b";
      ErrorProcessing (TypeError OpAdd TStr TInt)], None).
Proof.
  apply (process_graph_stops_at_first_error (λ _, []) _
           ["rate_card_a"] ["rate_card_c"] "rate_card_b").
  - reflexivity.
  - constructor; [|constructor]. apply is_Ok_alt. vm_compute. exact I.
  - vm_compute. reflexivity.
Defined.

(** X19. [process_graph] returns a dict exactly when the computation of
    every rate card returns; it has then logged one record for each rate
    card, in the order of the keys, and the completion record. *)
Theorem process_graph_returns_iff (sched : string → list nat)
    (c : Calculator) :
  (is_Some (process_graph sched c).2
   ↔ Forall (λ n, is_Ok (calculate_total_cost (sched n) c n))
       (rate_cards_keys c))
  ∧ (is_Some (process_graph sched c).2 →
     (process_graph sched c).1
     = ((InfoCalculating <$> rate_cards_keys c) ++ [InfoCompleted])%list).
Proof.
  assert (is_Some (process_graph sched c).2
          → Forall (λ n, is_Ok (calculate_total_cost (sched n) c n))
              (rate_cards_keys c)) as Hall.
  { intros Hsome.
    destruct (decide (Forall (λ n, is_Ok (calculate_total_cost (sched n) c n))
                        (rate_cards_keys c))) as [|Hnot]; [done|].
    apply first_failure in Hnot
      as (pre & name & post & Hkeys & Hpre & Hname); [|apply _].
    destruct (calculate_total_cost (sched name) c name) as [frag|e] eqn:Herr;
      [destruct Hname; by eexists|].
    rewrite (process_graph_stops_at_first_error_aux sched c pre post name e)
      in Hsome; [by destruct Hsome|done..]. }
  split; [split; [done|]|].
  - intros H. by apply (process_cards_completes sched c _ ∅ []).
  - intros Hsome. by apply (process_cards_completes sched c _ ∅ []), Hall.
Qed.

Lemma process_graph_returns_iff_witness :
  (process_graph (λ _, []) Fixture.calculator).1
  = [InfoCalculating "rate_card_a"; InfoCalculating "rate_card_b";
     InfoCompleted].
Proof.
  apply (proj2 (process_graph_returns_iff (λ _, []) Fixture.calculator)).
  apply is_Some_compute. vm_compute. exact I.
Defined.

(** ** The expectation of [test_process_graph] *)

Lemma add_routes_frame c rc results_key bucket (res : results) rs :
  add_routes c rc results_key (<[results_key := bucket]> res) rs
  = (res' ← add_routes c rc results_key {[ results_key := bucket ]} rs;
     Ok (res' ∪ res)).
Proof.
  revert bucket. induction rs as [|r rs IH]; intros bucket.
  - cbn. by rewrite insert_union_singleton_l.
  - cbn [add_routes].
    destruct (calculate_route_cost c rc r) as [cost|]; [|done].
    cbn [mbind result_bind].
    rewrite (add_route_at _ _ bucket r cost) by apply lookup_insert_eq.
    rewrite (add_route_at _ _ bucket r cost) by apply lookup_singleton_eq.
    destruct (r.2 !! "length"); [|done]. destruct (r.2 !! "material"); [|done].
    by rewrite insert_insert_eq, insert_singleton_eq, IH.
Qed.

Lemma expected_step sched c name rc (res out : results) :
  rate_cards_get c name = Some rc → dict_truthy rc = true →
  (rc ← rate_cards_item c name;
   '(expected1, total) ← expected_loop c rc ("rate_card_" ++ name)
                           (<["rate_card_" ++ name := ∅]> res) (VInt 0)
                           (get_routes c);
   nested_set expected1 ("rate_card_" ++ name)
     (("rate_card_" ++ name) ++ "_routes_total") (ETotal total)) = Ok out
  ↔ ∃ frag, calculate_total_cost sched c name = Ok frag ∧ out = frag ∪ res.
Proof.
  intros Hrc Htruthy. unfold rate_cards_item. rewrite Hrc.
  cbn [mbind result_bind]. split.
  - destruct (expected_loop _ _ _ _ _ _) as [[expected1 total]|] eqn:Hloop;
      [|done].
    cbn [mbind result_bind]. intros Hset.
    eapply expected_loop_split in Hloop as [(costs & Hc & Hsum) Hadd];
      [|apply lookup_insert_eq].
    rewrite add_routes_frame in Hadd.
    destruct (add_routes c rc _ {[ _ := ∅ ]} _) as [res1|] eqn:Hadd1;
      [|done].
    cbn [mbind result_bind] in Hadd. injection Hadd as <-.
    destruct (add_routes_singleton _ _ _ _ _ _ Hadd1) as [bucket ->].
    rewrite <- insert_union_singleton_l in Hset.
    rewrite (nested_set_at _ _ _ _ bucket) in Hset by apply lookup_insert_eq.
    rewrite insert_insert_eq in Hset. injection Hset as <-.
    eexists. split.
    + apply (total_cost_unfold _ _ _ _ _ Hrc Htruthy).
      exists costs, total, {[ "rate_card_" ++ name := bucket ]}.
      do 3 (split; [done|]).
      rewrite (nested_set_at _ _ _ _ bucket) by apply lookup_singleton_eq.
      by rewrite insert_singleton_eq.
    + by rewrite insert_union_singleton_l.
  - intros (frag & Hfrag & ->).
    destruct (proj1 (total_cost_unfold _ _ _ _ _ Hrc Htruthy) Hfrag)
      as (costs & total & res1 & Hc & Hsum & Hadd & Hset).
    destruct (add_routes_singleton _ _ _ _ _ _ Hadd) as [bucket ->].
    rewrite (nested_set_at _ _ _ _ bucket) in Hset by apply lookup_singleton_eq.
    rewrite insert_singleton_eq in Hset. injection Hset as <-.
    assert (expected_loop c rc ("rate_card_" ++ name)
              (<["rate_card_" ++ name := ∅]> res) (VInt 0) (get_routes c)
            = Ok (<["rate_card_" ++ name := bucket]> res, total)) as ->.
    { eapply expected_loop_split; [apply lookup_insert_eq|].
      split; [by exists costs|].
      rewrite add_routes_frame, Hadd. cbn [mbind result_bind].
      by rewrite insert_union_singleton_l. }
    cbn [mbind result_bind].
    rewrite (nested_set_at _ _ _ _ bucket) by apply lookup_insert_eq.
    by rewrite insert_insert_eq, insert_union_singleton_l.
Qed.

Lemma expected_cards_process sched c names (res : results) log out :
  (∀ name rc, rate_cards_get c name = Some rc → dict_truthy rc = true) →
  Forall (λ n, is_Some (rate_cards_get c n)) names →
  (process_cards sched c names res log).2 = Some out
  ↔ expected_cards c names res = Ok out.
Proof.
  intros Htruthy Hnames. revert res log.
  induction Hnames as [|name names [rc Hrc] _ IH]; intros res log.
  - cbn. split; congruence.
  - cbn [process_cards expected_cards].
    pose proof (expected_step (sched name) c name rc res) as Hstep.
    specialize (Htruthy name rc Hrc) as Ht.
    destruct (rc ← rate_cards_item c name;
              '(expected1, total) ← expected_loop c rc ("rate_card_" ++ name)
                                      (<["rate_card_" ++ name := ∅]> res)
                                      (VInt 0) (get_routes c);
              nested_set expected1 ("rate_card_" ++ name)
                (("rate_card_" ++ name) ++ "_routes_total") (ETotal total))
      as [step|e] eqn:Hrun.
    + destruct (proj1 (Hstep step Hrc Ht) eq_refl) as (frag & Hfrag & ->).
      rewrite Hfrag.
      assert (expected_cards c (name :: names) res
              = expected_cards c names (frag ∪ res)) as Heq.
      { cbn [expected_cards]. revert Hrun. unfold rate_cards_item.
        rewrite Hrc. cbn [mbind result_bind].
        destruct (expected_loop _ _ _ _ _ _) as [[e1 total]|]; [|done].
        cbn [mbind result_bind]. by intros ->. }
      cbn [expected_cards] in Heq. rewrite Heq. apply IH.
    + destruct (calculate_total_cost (sched name) c name) as [frag|e'] eqn:Hfrag.
      * assert (Err e = Ok (frag ∪ res)) as Habs; [|discriminate].
        { apply Hstep; [done..|]. by exists frag. }
      * cbn [snd].
        assert (expected_cards c (name :: names) res = Err e) as Heq.
        { cbn [expected_cards]. revert Hrun. unfold rate_cards_item.
          rewrite Hrc. cbn [mbind result_bind].
          destruct (expected_loop _ _ _ _ _ _) as [[e1 total]|];
            cbn [mbind result_bind]; [by intros ->|done]. }
        cbn [expected_cards] in Heq. rewrite Heq. split; discriminate.
Qed.

(** X20. What [test_process_graph] expects is what [process_graph] returns,
    on every graph, whenever no stored rate card is empty: [process_graph]
    returns a dict exactly when the test's own loops build that dict. *)
Theorem process_graph_meets_test_expectation (sched : string → list nat)
    (c : Calculator) (out : results) :
  Forall (λ p : string * rate_card, dict_truthy p.2 = true) (rate_cards c) →
  (process_graph sched c).2 = Some out ↔ expected_process_graph c = Ok out.
Proof.
  intros Htruthy. unfold process_graph, expected_process_graph.
  apply expected_cards_process.
  - intros name rc Hrc. apply rate_cards_get_elem in Hrc.
    rewrite Forall_forall in Htruthy. by apply (Htruthy (name, rc)).
  - apply Forall_forall. intros name Hname.
    destruct (rate_cards_get c name) as [rc|] eqn:Hrc; [by eexists|].
    unfold rate_cards_get in Hrc. by apply not_elem_of_list_to_map in Hrc.
Qed.

Lemma process_graph_meets_test_expectation_witness :
  expected_process_graph Fixture.calculator
  = Ok {[ "rate_card_rate_card_a" :=
            {[ "route_A--B" := ERoute (VInt 50) (VStr "verge") (VInt 3600);
               "rate_card_rate_card_a_routes_total" := ETotal (VInt 3600) ]};
          "rate_card_rate_card_b" :=
            {[ "route_A--B" := ERoute (VInt 50) (VStr "verge") (VInt 3220);
               "rate_card_rate_card_b_routes_total" := ETotal (VInt 3220) ]} ]}.
Proof.
  apply (process_graph_meets_test_expectation (λ _, []) Fixture.calculator).
  - constructor; [vm_compute; reflexivity|].
    constructor; [vm_compute; reflexivity|constructor].
  - vm_compute. reflexivity.
Defined.

(** X21. For a calculator that [__init__] built over a graph with no edge,
    [process_graph] returns, for each stored rate card, the bucket that
    holds its total [0] and nothing else, and no other bucket. *)
Theorem process_graph_empty_graph (sched : string → list nat) (g : Graph)
    (records : list rate_card) (c : Calculator) :
  init g records = Ok c →
  edges g = [] →
  ∃ merged,
    process_graph sched c
    = (((InfoCalculating <$> rate_cards_keys c) ++ [InfoCompleted])%list,
       Some merged)
    ∧ ∀ k bucket,
        merged !! k = Some bucket ↔
        ∃ name, name ∈ rate_cards_keys c
                ∧ k = "rate_card_" ++ name
                ∧ bucket = {[ "rate_card_" ++ name ++ "_routes_total"
                              := ETotal (VInt 0) ]}.
Proof.
  intros Hinit Hedges.
  assert (∀ name, name ∈ rate_cards_keys c →
            calculate_total_cost (sched name) c name
            = Ok {[ "rate_card_" ++ name :=
                      {[ "rate_card_" ++ name ++ "_routes_total"
                         := ETotal (VInt 0) ]} ]}) as Hcard.
  { intros name Hname.
    destruct (rate_cards_get c name) as [rc|] eqn:Hrc.
    - apply (total_cost_no_routes _ c name rc Hrc).
      + eapply init_rate_cards_truthy; [exact Hinit|].
        by apply rate_cards_get_elem.
      + unfold get_routes. by rewrite (init_graph _ _ _ Hinit).
    - unfold rate_cards_get in Hrc. by apply not_elem_of_list_to_map in Hrc. }
  assert (Forall (λ n, is_Ok (calculate_total_cost (sched n) c n))
            (rate_cards_keys c)) as Hall.
  { apply Forall_forall. intros name Hname. eexists. by apply Hcard. }
  destruct (process_cards_union sched sched c (rate_cards_keys c) ∅ [])
    as (merged & Hmerged & Hchar).
  { by apply Forall_forall. }
  destruct (process_cards_completes sched c _ ∅ [] Hall) as [Hlog _].
  exists merged. split.
  - unfold process_graph.
    destruct (process_cards sched c (rate_cards_keys c) ∅ []) as [log out].
    cbn [fst snd] in *. by subst.
  - intros k bucket. rewrite Hchar. split.
    + intros [(name & frag & Hname & Hfrag & Hk)|[_ H]];
        [|by rewrite lookup_empty in H].
      rewrite (Hcard name Hname) in Hfrag. injection Hfrag as <-.
      apply lookup_singleton_Some in Hk as [<- <-]. by exists name.
    + intros (name & Hname & -> & ->). left.
      exists name, {[ "rate_card_" ++ name :=
                        {[ "rate_card_" ++ name ++ "_routes_total"
                           := ETotal (VInt 0) ]} ]}.
      split; [done|]. split; [by apply Hcard|].
      apply lookup_singleton_eq.
Qed.

Lemma process_graph_empty_graph_witness :
  ∃ merged : results,
    (process_graph (λ _, [])
       {| graph := Fixture.empty_graph;
          rate_cards := rate_cards Fixture.calculator |}).2 = Some merged
    ∧ merged !! "rate_card_rate_card_a"
      = Some {[ "rate_card_rate_card_a_routes_total" := ETotal (VInt 0) ]}.
Proof.
  destruct (process_graph_empty_graph (λ _, []) Fixture.empty_graph
              [Fixture.rate_card_a; Fixture.rate_card_b]
              {| graph := Fixture.empty_graph;
                 rate_cards := rate_cards Fixture.calculator |})
    as (merged & Hrun & Hchar).
  - vm_compute. reflexivity.
  - reflexivity.
  - exists merged. split; [by rewrite Hrun|].
    apply Hchar. exists "rate_card_a".
    split; [apply list_elem_of_In; simpl; tauto|]. by split.
Defined.
